(** * SimCard management API (malin.py): a shallow embedding

    The FastAPI handlers of [malin.py] are embedded as functions from a
    database state to the committed database state and the HTTP response.
    The two tables the handlers work on, [shops] and [simcards], are lists
    of rows in storage (rowid) order; the values that the handlers draw
    from their environment, [uuid.uuid4()] and [datetime.now()], are
    arguments of the handlers.  The [users] table is only read by
    [/auth/login] and is left out. *)

From Stdlib Require Import ZArith Ascii Floats.PrimFloat.
From stdpp Require Import base option list sorting strings pretty gmap.


(** ** Rows and request bodies *)

(** [datetime.now().isoformat()] is stored as TEXT; the ISO rendering is
    monotone in the clock reading, so a timestamp is kept as the reading
    itself and compared as a number where SQL compares the text. *)
Definition datetime := Z.
Bind Scope Z_scope with datetime.

Module Shop.
Record t := mk {
  id : string;
  name : string;
  ownerName : string;
  ownerPhone : string;
  address : string;
  latitude : option float;
  longitude : option float;
  status : string;
  region : string;
  assignedSimCards : string;
  addedDate : datetime
}.
End Shop.

Module SimCard.
Record t := mk {
  id : string;
  code : string;
  status : string;
  assignedTo : option string;
  assignedShopName : option string;
  addedDate : datetime;
  saleDate : option datetime;
  lastChecked : option datetime
}.
End SimCard.

Module ShopCreate.
Record t := mk {
  name : string;
  ownerName : string;
  ownerPhone : string;
  address : string;
  latitude : option float;
  longitude : option float;
  region : string
}.
End ShopCreate.

Module ShopUpdate.
Record t := mk {
  name : option string;
  ownerName : option string;
  ownerPhone : option string;
  address : option string;
  latitude : option float;
  longitude : option float;
  status : option string;
  region : option string
}.
End ShopUpdate.

Module SimCardUpdate.
Record t := mk {
  code : option string;
  status : option string;
  assignedTo : option string;
  assignedShopName : option string
}.
End SimCardUpdate.

Record DB := mkDB {
  shops : list Shop.t;
  simcards : list SimCard.t
}.

(** The database right after [init_database()]. *)
Definition empty_db : DB := mkDB [] [].

(** ** Responses *)

(** A handler returns a value, raises [HTTPException], or lets another
    exception escape (FastAPI answers 500). *)
Inductive response (A : Type) : Type :=
| Ok (a : A)
| HTTPException (status_code : Z) (detail : string)
| Uncaught (exn : string).
Arguments Ok {A} a.
Arguments HTTPException {A} status_code detail.
Arguments Uncaught {A} exn.

Definition IntegrityError : string := "sqlite3.IntegrityError".
Definition JSONDecodeError : string := "json.JSONDecodeError".
Definition TypeError : string := "TypeError".
Definition OverflowError : string := "OverflowError".

(** The shop dictionary that the shop handlers return: the row with its
    [assignedSimCards] column replaced by the parsed list. *)
Record ShopDict := mkShopDict {
  shop_row : Shop.t;
  shop_assignedSimCards : list string
}.

(** An entry of [assigned_cards] in [assign_simcards_to_shop]. *)
Record AssignedCard := mkAssignedCard {
  ac_id : string;
  ac_code : string;
  ac_status : string;
  ac_assignedTo : string;
  ac_assignedShopName : string
}.

(** An entry of [results] in [auto_check_simcards]. *)
Record CheckResult := mkCheckResult {
  cr_simCardId : string;
  cr_status : string;
  cr_isSold : bool;
  cr_saleDate : option datetime;
  cr_lastChecked : datetime
}.

(** ** [json.loads] on the [assignedSimCards] column

    The column holds a JSON array of identifiers; the only text the
    handlers ever write there is "[]".  The parser covers arrays of string
    literals without escape sequences and without control characters, with
    optional white space, and answers [None] on any other text.  The
    properties below rely on it for the column "[]" only. *)
Definition quote_char : ascii := "034"%char.
Definition backslash_char : ascii := "092"%char.

Definition is_json_ws (a : ascii) : bool :=
  bool_decide (a = " "%char) || bool_decide (a = "009"%char)
  || bool_decide (a = "010"%char) || bool_decide (a = "013"%char).

Fixpoint skip_ws (s : string) : string :=
  match s with
  | String a s' => if is_json_ws a then skip_ws s' else s
  | EmptyString => s
  end.

Fixpoint read_literal (s : string) : option (string * string) :=
  match s with
  | EmptyString => None
  | String a s' =>
      if bool_decide (a = quote_char) then Some (EmptyString, s')
      else if bool_decide (a = backslash_char) then None
      else if (N_of_ascii a <? 32)%N then None
      else match read_literal s' with
           | Some (lit, rest) => Some (String a lit, rest)
           | None => None
           end
  end.

Fixpoint read_elements (fuel : nat) (s : string) : option (list string) :=
  match fuel with
  | O => None
  | S fuel' =>
      match skip_ws s with
      | String a s1 =>
          if bool_decide (a = quote_char) then
            match read_literal s1 with
            | Some (lit, rest) =>
                match skip_ws rest with
                | String b s2 =>
                    if bool_decide (b = ","%char) then
                      cons lit <$> read_elements fuel' s2
                    else if bool_decide (b = "]"%char) then
                      match skip_ws s2 with
                      | EmptyString => Some [lit]
                      | _ => None
                      end
                    else None
                | EmptyString => None
                end
            | None => None
            end
          else None
      | EmptyString => None
      end
  end.

Definition json_loads (s : string) : option (list string) :=
  match skip_ws s with
  | String a s1 =>
      if bool_decide (a = "["%char) then
        match skip_ws s1 with
        | String b s2 =>
            if bool_decide (b = "]"%char) then
              match skip_ws s2 with
              | EmptyString => Some []
              | _ => None
              end
            else read_elements (String.length s) s1
        | EmptyString => None
        end
      else None
  | EmptyString => None
  end.

(** ** SQL building blocks *)

(** [cursor.fetchone()] after [SELECT * FROM shops WHERE id = ?]. *)
Definition select_shop (shop_id : string) (db : DB) : option Shop.t :=
  head (filter (λ s, Shop.id s = shop_id) (shops db)).

(** [cursor.fetchone()] after [SELECT * FROM simcards WHERE id = ?]. *)
Definition select_simcard (simcard_id : string) (db : DB) : option SimCard.t :=
  head (filter (λ c, SimCard.id c = simcard_id) (simcards db)).

(** A Python float bound to a REAL column, as it is read back: SQLite
    stores NaN as NULL, and stores a float that equals an integer (so also
    the negative zero) as that integer, which reads back as the positive
    zero. *)
Definition sql_real (v : float) : option float :=
  if PrimFloat.is_nan v then None
  else if PrimFloat.is_zero v then Some PrimFloat.zero
  else Some v.

(** A Python int bound to a statement parameter must fit SQLite's 64-bit
    INTEGER; otherwise [sqlite3] raises [OverflowError]. *)
Definition sqlite_int64 (n : Z) : Prop := (- 2 ^ 63 ≤ n < 2 ^ 63)%Z.

#[global] Instance sqlite_int64_dec n : Decision (sqlite_int64 n).
Proof. unfold sqlite_int64. apply _. Defined.

(** [ORDER BY key DESC]: rows with a larger key first; rows with equal
    keys keep their storage order. *)
Fixpoint insert_desc {A : Type} (key : A → Z) (x : A) (l : list A) : list A :=
  match l with
  | [] => [x]
  | y :: l' =>
      if decide (key y ≤ key x)%Z then x :: y :: l'
      else y :: insert_desc key x l'
  end.

Definition order_by_desc {A : Type} (key : A → Z) (rows : list A) : list A :=
  foldr (insert_desc key) [] rows.

(** [UPDATE ... SET ... WHERE cond]: every row meeting the condition is
    rewritten in place. *)
Definition update_where {A : Type} (P : A → Prop) `{!∀ x, Decision (P x)}
    (f : A → A) (rows : list A) : list A :=
  (λ r, if decide (P r) then f r else r) <$> rows.

(** [LIMIT ?]: SQLite puts no bound on the rows when the limit is
    negative. *)
Definition sql_limit {A : Type} (n : Z) (rows : list A) : list A :=
  if decide (n < 0)%Z then rows else take (Z.to_nat n) rows.

(** [id TEXT PRIMARY KEY] on both tables, [code TEXT UNIQUE] on simcards. *)
Definition shops_constraint (rows : list Shop.t) : Prop :=
  NoDup (Shop.id <$> rows).

Definition simcards_constraint (rows : list SimCard.t) : Prop :=
  NoDup (SimCard.id <$> rows) ∧ NoDup (SimCard.code <$> rows).

(** The states SQLite can hold. *)
Definition wf_db (db : DB) : Prop :=
  shops_constraint (shops db) ∧ simcards_constraint (simcards db).

#[global] Instance wf_db_dec db : Decision (wf_db db).
Proof. unfold wf_db, shops_constraint, simcards_constraint. apply _. Defined.

(** A Python dict built by assigning [d[k] = v] for the rows in order. *)
Definition dict_of {V : Type} (rows : list (string * V)) : gmap string V :=
  foldl (λ d kv, <[kv.1 := kv.2]> d) ∅ rows.

(** ** Shop handlers *)

Definition shop_dict (row : Shop.t) : response ShopDict :=
  match json_loads (Shop.assignedSimCards row) with
  | Some l => Ok (mkShopDict row l)
  | None => Uncaught JSONDecodeError
  end.

(** [ORDER BY addedDate DESC]. *)
Definition shop_newer (a b : Shop.t) : Prop :=
  (Shop.addedDate b ≤ Shop.addedDate a)%Z.

Definition simcard_newer (a b : SimCard.t) : Prop :=
  (SimCard.addedDate b ≤ SimCard.addedDate a)%Z.

#[global] Instance shop_newer_dec : RelDecision shop_newer.
Proof. intros a b. unfold shop_newer. apply _. Defined.

#[global] Instance simcard_newer_dec : RelDecision simcard_newer.
Proof. intros a b. unfold simcard_newer. apply _. Defined.

(** The loop of [get_shops]: the first row that does not parse ends the
    request. *)
Fixpoint shop_dicts (rows : list Shop.t) : response (list ShopDict) :=
  match rows with
  | [] => Ok []
  | row :: rows' =>
      match shop_dict row with
      | Ok d =>
          match shop_dicts rows' with
          | Ok ds => Ok (d :: ds)
          | HTTPException c m => HTTPException c m
          | Uncaught e => Uncaught e
          end
      | HTTPException c m => HTTPException c m
      | Uncaught e => Uncaught e
      end
  end.

Definition get_shops (db : DB) : response (list ShopDict) :=
  shop_dicts (order_by_desc Shop.addedDate (shops db)).

Definition create_shop (shop_id : string) (now : datetime)
    (shop : ShopCreate.t) (db : DB) : DB * response ShopDict :=
  let row :=
    Shop.mk shop_id (ShopCreate.name shop) (ShopCreate.ownerName shop)
      (ShopCreate.ownerPhone shop) (ShopCreate.address shop)
      (ShopCreate.latitude shop ≫= sql_real)
      (ShopCreate.longitude shop ≫= sql_real)
      "active" (ShopCreate.region shop) "[]" now in
  let rows := shops db ++ [row] in
  if decide (shops_constraint rows) then
    let db' := mkDB rows (simcards db) in
    match select_shop shop_id db' with
    | Some created_shop => (db', shop_dict created_shop)
    | None => (db', Uncaught TypeError)
    end
  else (db, Uncaught IntegrityError).

(** The entries of [update_fields], as the assignments of the SET clause. *)
Inductive shop_set : Type :=
| shop_set_name (v : string)
| shop_set_ownerName (v : string)
| shop_set_ownerPhone (v : string)
| shop_set_address (v : string)
| shop_set_latitude (v : float)
| shop_set_longitude (v : float)
| shop_set_status (v : string)
| shop_set_region (v : string).

Definition if_given {A B : Type} (f : A → B) (o : option A) : list B :=
  match o with
  | Some v => [f v]
  | None => []
  end.

Definition shop_update_fields (shop : ShopUpdate.t) : list shop_set :=
  if_given shop_set_name (ShopUpdate.name shop)
  ++ if_given shop_set_ownerName (ShopUpdate.ownerName shop)
  ++ if_given shop_set_ownerPhone (ShopUpdate.ownerPhone shop)
  ++ if_given shop_set_address (ShopUpdate.address shop)
  ++ if_given shop_set_latitude (ShopUpdate.latitude shop)
  ++ if_given shop_set_longitude (ShopUpdate.longitude shop)
  ++ if_given shop_set_status (ShopUpdate.status shop)
  ++ if_given shop_set_region (ShopUpdate.region shop).

Definition apply_shop_set (r : Shop.t) (a : shop_set) : Shop.t :=
  let '(Shop.mk i n on op ad la lo st re asc dt) := r in
  match a with
  | shop_set_name v => Shop.mk i v on op ad la lo st re asc dt
  | shop_set_ownerName v => Shop.mk i n v op ad la lo st re asc dt
  | shop_set_ownerPhone v => Shop.mk i n on v ad la lo st re asc dt
  | shop_set_address v => Shop.mk i n on op v la lo st re asc dt
  | shop_set_latitude v => Shop.mk i n on op ad (sql_real v) lo st re asc dt
  | shop_set_longitude v => Shop.mk i n on op ad la (sql_real v) st re asc dt
  | shop_set_status v => Shop.mk i n on op ad la lo v re asc dt
  | shop_set_region v => Shop.mk i n on op ad la lo st v asc dt
  end.

Definition update_shop (shop_id : string) (shop : ShopUpdate.t) (db : DB)
    : DB * response ShopDict :=
  match select_shop shop_id db with
  | None => (db, HTTPException 404 "Shop not found")
  | Some existing_shop =>
      let update_fields := shop_update_fields shop in
      let db' :=
        match update_fields with
        | [] => db
        | _ :: _ =>
            mkDB (update_where (λ s, Shop.id s = shop_id)
                    (λ s, foldl apply_shop_set s update_fields) (shops db))
                 (simcards db)
        end in
      match select_shop shop_id db' with
      | Some updated_shop => (db', shop_dict updated_shop)
      | None => (db', Uncaught TypeError)
      end
  end.

Definition release_simcard (c : SimCard.t) : SimCard.t :=
  SimCard.mk (SimCard.id c) (SimCard.code c) "available" None None
    (SimCard.addedDate c) (SimCard.saleDate c) (SimCard.lastChecked c).

Definition delete_shop (shop_id : string) (db : DB) : DB * response bool :=
  match select_shop shop_id db with
  | None => (db, HTTPException 404 "Shop not found")
  | Some shop =>
      (mkDB (filter (λ s, Shop.id s ≠ shop_id) (shops db))
            (update_where (λ c, SimCard.assignedTo c = Some shop_id)
               release_simcard (simcards db)),
       Ok true)
  end.

(** ** SimCard handlers *)

Module SimCardCreate.
Record t := mk {
  code : string
}.
End SimCardCreate.

Definition read_back_simcard (simcard_id : string) (db : DB)
    : DB * response SimCard.t :=
  match select_simcard simcard_id db with
  | Some row => (db, Ok row)
  | None => (db, Uncaught TypeError)
  end.

(** [ORDER BY addedDate DESC]. *)
Definition get_simcards (db : DB) : list SimCard.t :=
  order_by_desc SimCard.addedDate (simcards db).

(** The [except sqlite3.IntegrityError] clause turns a violation of either
    constraint of the table into the 400 response. *)
Definition create_simcard (simcard_id : string) (now : datetime)
    (simcard : SimCardCreate.t) (db : DB) : DB * response SimCard.t :=
  let row :=
    SimCard.mk simcard_id (SimCardCreate.code simcard) "available"
      None None now None None in
  let rows := simcards db ++ [row] in
  if decide (simcards_constraint rows) then
    read_back_simcard simcard_id (mkDB (shops db) rows)
  else (db, HTTPException 400 "SimCard code already exists").

Inductive simcard_set : Type :=
| simcard_set_code (v : string)
| simcard_set_status (v : string)
| simcard_set_saleDate (v : datetime)
| simcard_set_assignedTo (v : string)
| simcard_set_assignedShopName (v : string).

Definition simcard_update_fields (simcard : SimCardUpdate.t)
    (now : datetime) : list simcard_set :=
  if_given simcard_set_code (SimCardUpdate.code simcard)
  ++ match SimCardUpdate.status simcard with
     | Some st =>
         simcard_set_status st
         :: (if decide (st = "sold") then [simcard_set_saleDate now] else [])
     | None => []
     end
  ++ if_given simcard_set_assignedTo (SimCardUpdate.assignedTo simcard)
  ++ if_given simcard_set_assignedShopName
       (SimCardUpdate.assignedShopName simcard).

Definition apply_simcard_set (r : SimCard.t) (a : simcard_set) : SimCard.t :=
  let '(SimCard.mk i co st asg asn ad sd lc) := r in
  match a with
  | simcard_set_code v => SimCard.mk i v st asg asn ad sd lc
  | simcard_set_status v => SimCard.mk i co v asg asn ad sd lc
  | simcard_set_saleDate v => SimCard.mk i co st asg asn ad (Some v) lc
  | simcard_set_assignedTo v => SimCard.mk i co st (Some v) asn ad sd lc
  | simcard_set_assignedShopName v => SimCard.mk i co st asg (Some v) ad sd lc
  end.

(** The UPDATE may write [code]; a violated UNIQUE constraint raises
    [sqlite3.IntegrityError], which this handler does not catch. *)
Definition update_simcard (simcard_id : string) (simcard : SimCardUpdate.t)
    (now : datetime) (db : DB) : DB * response SimCard.t :=
  match select_simcard simcard_id db with
  | None => (db, HTTPException 404 "SimCard not found")
  | Some existing_simcard =>
      let update_fields := simcard_update_fields simcard now in
      match update_fields with
      | [] => read_back_simcard simcard_id db
      | _ :: _ =>
          let rows :=
            update_where (λ c, SimCard.id c = simcard_id)
              (λ c, foldl apply_simcard_set c update_fields) (simcards db) in
          if decide (simcards_constraint rows) then
            read_back_simcard simcard_id (mkDB (shops db) rows)
          else (db, Uncaught IntegrityError)
      end
  end.

Definition delete_simcard (simcard_id : string) (db : DB)
    : DB * response bool :=
  match select_simcard simcard_id db with
  | None => (db, HTTPException 404 "SimCard not found")
  | Some simcard =>
      (mkDB (shops db)
            (filter (λ c, SimCard.id c ≠ simcard_id) (simcards db)),
       Ok true)
  end.

Definition assign_simcard (shopId shop_name : string) (c : SimCard.t)
    : SimCard.t :=
  SimCard.mk (SimCard.id c) (SimCard.code c) "assigned" (Some shopId)
    (Some shop_name) (SimCard.addedDate c) (SimCard.saleDate c)
    (SimCard.lastChecked c).

Definition assigned_card (shopId shop_name : string) (simcard : SimCard.t)
    : AssignedCard :=
  mkAssignedCard (SimCard.id simcard) (SimCard.code simcard) "assigned"
    shopId shop_name.

(** One turn of the assignment loop: the UPDATE for one selected card. *)
Definition assign_one (shopId shop_name : string) (db : DB)
    (simcard : SimCard.t) : DB :=
  mkDB (shops db)
       (update_where (λ c, SimCard.id c = SimCard.id simcard)
          (assign_simcard shopId shop_name) (simcards db)).

Definition is_available (c : SimCard.t) : Prop :=
  SimCard.status c = "available".

#[global] Instance is_available_dec c : Decision (is_available c).
Proof. unfold is_available. apply _. Defined.

(** [count] is bound to [LIMIT ?] before any row is read. *)
Definition assign_simcards_to_shop (shopId : string) (count : Z) (db : DB)
    : DB * response (list AssignedCard) :=
  match select_shop shopId db with
  | None => (db, HTTPException 404 "Shop not found")
  | Some shop =>
      if decide (sqlite_int64 count) then
        let available_simcards :=
          sql_limit count (filter is_available (simcards db)) in
        if decide (Z.of_nat (length available_simcards) < count)%Z then
          (db, HTTPException 400
                 ("Only " +:+ pretty (length available_simcards)
                  +:+ " simcards available"))
        else
          (foldl (assign_one shopId (Shop.name shop)) db available_simcards,
           Ok (assigned_card shopId (Shop.name shop) <$> available_simcards))
      else (db, Uncaught OverflowError)
  end.

Definition set_lastChecked (now : datetime) (c : SimCard.t) : SimCard.t :=
  SimCard.mk (SimCard.id c) (SimCard.code c) (SimCard.status c)
    (SimCard.assignedTo c) (SimCard.assignedShopName c)
    (SimCard.addedDate c) (SimCard.saleDate c) (Some now).

Definition stamp_lastChecked (simcard_id : string) (now : datetime)
    (db : DB) : DB :=
  mkDB (shops db)
       (update_where (λ c, SimCard.id c = simcard_id) (set_lastChecked now)
          (simcards db)).

(** The handler returns [dict(simcard)], the row fetched before the
    UPDATE. *)
Definition check_simcard_status (simcard_id : string) (now : datetime)
    (db : DB) : DB * response SimCard.t :=
  match select_simcard simcard_id db with
  | None => (db, HTTPException 404 "SimCard not found")
  | Some simcard => (stamp_lastChecked simcard_id now db, Ok simcard)
  end.

(** One turn of the loop of [auto_check_simcards]; [simcard_id] is
    [simcard_data.get("id")], [None] when the key is missing (no row has a
    NULL id). *)
Definition auto_check_one (timestamp : datetime)
    (acc : DB * list CheckResult) (simcard_id : option string)
    : DB * list CheckResult :=
  match simcard_id with
  | None => acc
  | Some sid =>
      match select_simcard sid acc.1 with
      | Some simcard =>
          (stamp_lastChecked sid timestamp acc.1,
           acc.2 ++ [mkCheckResult sid (SimCard.status simcard)
                       (bool_decide (SimCard.status simcard = "sold"))
                       (SimCard.saleDate simcard) timestamp])
      | None => acc
      end
  end.

Definition auto_check_simcards (simcards : list (option string))
    (timestamp : datetime) (db : DB)
    : DB * response (list CheckResult * datetime) :=
  let acc := foldl (auto_check_one timestamp) (db, []) simcards in
  (acc.1, Ok (acc.2, timestamp)).

(** ** Statistics *)

Definition count_status (st : string) (rows : list SimCard.t) : nat :=
  length (filter (λ c, SimCard.status c = st) rows).

(** The counters and the region table of [get_statistics]; [salesByDate]
    depends on the calendar only and is left out. *)
Module Statistics.
Record t := mk {
  totalShops : nat;
  activeShops : nat;
  totalSimCards : nat;
  availableSimCards : nat;
  assignedSimCards : nat;
  soldSimCards : nat;
  regionStats : gmap string nat
}.
End Statistics.

Definition get_statistics (db : DB) : Statistics.t :=
  Statistics.mk
    (length (shops db))
    (length (filter (λ s, Shop.status s = "active") (shops db)))
    (length (simcards db))
    (count_status "available" (simcards db))
    (count_status "assigned" (simcards db))
    (count_status "sold" (simcards db))
    (dict_of
       ((λ r, (r, length (filter (λ s, Shop.region s = r) (shops db))))
          <$> remove_dups (Shop.region <$> shops db))).

Module ShopSales.
Record t := mk {
  sold : nat;
  available : nat;
  total : nat
}.
End ShopSales.

(** [FROM shops s LEFT JOIN simcards sc ON s.id = sc.assignedTo]: a shop
    without a matching card yields one row with the card columns NULL. *)
Definition left_join (ss : list Shop.t) (cs : list SimCard.t)
    : list (Shop.t * option SimCard.t) :=
  ss ≫= λ s,
    match filter (λ c, SimCard.assignedTo c = Some (Shop.id s)) cs with
    | [] => [(s, None)]
    | m => (λ c, (s, Some c)) <$> m
    end.

Definition group_key (r : Shop.t * option SimCard.t) : string * string :=
  (Shop.id r.1, Shop.name r.1).

(** [sc.status = st], false on the NULL card of an unmatched shop. *)
Definition joined_status (st : string) (r : Shop.t * option SimCard.t)
    : Prop :=
  match r.2 with
  | Some c => SimCard.status c = st
  | None => False
  end.

#[global] Instance joined_status_dec st r : Decision (joined_status st r).
Proof. unfold joined_status. destruct (r.2); apply _. Defined.

(** The result rows of the GROUP BY, one per distinct [(s.id, s.name)]. *)
Definition shop_sales_rows (db : DB) : list (string * ShopSales.t) :=
  let joined := left_join (shops db) (simcards db) in
  (λ k,
     let grp := filter (λ r, group_key r = k) joined in
     (k.1, ShopSales.mk
             (length (filter (joined_status "sold") grp))
             (length (filter (joined_status "assigned") grp))
             (length (filter (λ r, is_Some r.2) grp))))
    <$> remove_dups (group_key <$> joined).

Definition get_shop_sales_stats (db : DB) : gmap string ShopSales.t :=
  dict_of (shop_sales_rows db).

(** ** The API as a transition system *)

(** The requests that write; the GET handlers other than
    [check-status] leave the database as it is. *)
Inductive request : Type :=
| ReqCreateShop (shop_id : string) (now : datetime) (shop : ShopCreate.t)
| ReqUpdateShop (shop_id : string) (shop : ShopUpdate.t)
| ReqDeleteShop (shop_id : string)
| ReqCreateSimCard (simcard_id : string) (now : datetime)
    (simcard : SimCardCreate.t)
| ReqUpdateSimCard (simcard_id : string) (simcard : SimCardUpdate.t)
    (now : datetime)
| ReqDeleteSimCard (simcard_id : string)
| ReqAssign (shopId : string) (count : Z)
| ReqCheckStatus (simcard_id : string) (now : datetime)
| ReqAutoCheck (simcards : list (option string)) (timestamp : datetime).

(** The database a request leaves behind. *)
Definition handle (r : request) (db : DB) : DB :=
  match r with
  | ReqCreateShop i now s => (create_shop i now s db).1
  | ReqUpdateShop i s => (update_shop i s db).1
  | ReqDeleteShop i => (delete_shop i db).1
  | ReqCreateSimCard i now c => (create_simcard i now c db).1
  | ReqUpdateSimCard i c now => (update_simcard i c now db).1
  | ReqDeleteSimCard i => (delete_simcard i db).1
  | ReqAssign i n => (assign_simcards_to_shop i n db).1
  | ReqCheckStatus i now => (check_simcard_status i now db).1
  | ReqAutoCheck l now => (auto_check_simcards l now db).1
  end.

(** States reachable from the initial database by requests that each meet
    [guard] in the state they arrive in. *)
Inductive reachable_by (guard : DB → request → Prop) : DB → Prop :=
| reach_init : reachable_by guard empty_db
| reach_step db r :
    reachable_by guard db → guard db r → reachable_by guard (handle r db).

Definition any_request (db : DB) (r : request) : Prop := True.

Definition reachable : DB → Prop := reachable_by any_request.

(** The assignment predicate of the data model, on one card and on a
    database. *)
Definition assignment_consistent (c : SimCard.t) : Prop :=
  (SimCard.status c = "available" → SimCard.assignedTo c = None)
  ∧ (SimCard.status c = "assigned" ∨ SimCard.status c = "sold" →
     is_Some (SimCard.assignedTo c)).

Definition assignment_invariant (db : DB) : Prop :=
  Forall assignment_consistent (simcards db).

(** A request that is not an update of a SimCard, or an update whose
    written row meets the assignment predicate. *)
Definition consistent_request (db : DB) (r : request) : Prop :=
  match r with
  | ReqUpdateSimCard simcard_id simcard now =>
      ∀ c, c ∈ simcards db → SimCard.id c = simcard_id →
           assignment_consistent
             (foldl apply_simcard_set c (simcard_update_fields simcard now))
  | _ => True
  end.

(** ** The sparse update in the words of the specification *)

(** A column after a partial update: the value of the request when the
    field is present, the prior value when it is omitted. *)
Definition kept_or_set {A : Type} (old new : A) (req : option A) : Prop :=
  match req with
  | Some v => new = v
  | None => new = old
  end.

(** [new] is [old] after the sparse update by [shop]: the columns the
    request cannot name are kept, each of the others is kept or set (a
    latitude or longitude to the value as SQLite stores it). *)
Definition shop_sparse_update (shop : ShopUpdate.t) (old new : Shop.t)
    : Prop :=
  Shop.id new = Shop.id old
  ∧ Shop.assignedSimCards new = Shop.assignedSimCards old
  ∧ Shop.addedDate new = Shop.addedDate old
  ∧ kept_or_set (Shop.name old) (Shop.name new) (ShopUpdate.name shop)
  ∧ kept_or_set (Shop.ownerName old) (Shop.ownerName new)
      (ShopUpdate.ownerName shop)
  ∧ kept_or_set (Shop.ownerPhone old) (Shop.ownerPhone new)
      (ShopUpdate.ownerPhone shop)
  ∧ kept_or_set (Shop.address old) (Shop.address new)
      (ShopUpdate.address shop)
  ∧ kept_or_set (Shop.latitude old) (Shop.latitude new)
      (sql_real <$> ShopUpdate.latitude shop)
  ∧ kept_or_set (Shop.longitude old) (Shop.longitude new)
      (sql_real <$> ShopUpdate.longitude shop)
  ∧ kept_or_set (Shop.status old) (Shop.status new) (ShopUpdate.status shop)
  ∧ kept_or_set (Shop.region old) (Shop.region new) (ShopUpdate.region shop).

(** The same for a card, with the rule for [saleDate]: stamped with the
    clock reading when the request sets status "sold", kept otherwise. *)
Definition simcard_sparse_update (simcard : SimCardUpdate.t) (now : datetime)
    (old new : SimCard.t) : Prop :=
  SimCard.id new = SimCard.id old
  ∧ SimCard.addedDate new = SimCard.addedDate old
  ∧ SimCard.lastChecked new = SimCard.lastChecked old
  ∧ kept_or_set (SimCard.code old) (SimCard.code new)
      (SimCardUpdate.code simcard)
  ∧ kept_or_set (SimCard.status old) (SimCard.status new)
      (SimCardUpdate.status simcard)
  ∧ kept_or_set (SimCard.assignedTo old) (SimCard.assignedTo new)
      (Some <$> SimCardUpdate.assignedTo simcard)
  ∧ kept_or_set (SimCard.assignedShopName old) (SimCard.assignedShopName new)
      (Some <$> SimCardUpdate.assignedShopName simcard)
  ∧ SimCard.saleDate new
    = if decide (SimCardUpdate.status simcard = Some "sold")
      then Some now else SimCard.saleDate old.

(** The request bodies with every field omitted. *)
Definition empty_shop_update : ShopUpdate.t :=
  ShopUpdate.mk None None None None None None None None.

Definition empty_simcard_update : SimCardUpdate.t :=
  SimCardUpdate.mk None None None None.

(** The request carries a code that a card other than the updated one
    holds. *)
Definition code_taken_by_other (simcard_id : string)
    (simcard : SimCardUpdate.t) (db : DB) : Prop :=
  match SimCardUpdate.code simcard with
  | Some v =>
      Exists (λ o, SimCard.id o ≠ simcard_id ∧ SimCard.code o = v)
        (simcards db)
  | None => False
  end.

#[global] Instance code_taken_by_other_dec simcard_id simcard db :
  Decision (code_taken_by_other simcard_id simcard db).
Proof. unfold code_taken_by_other. destruct (SimCardUpdate.code _); apply _. Defined.

(** ** Vocabulary of the statistics claims *)

(** The three statuses of the data model; the [status] column itself is
    TEXT and takes whatever [update_simcard] is sent. *)
Definition known_status (c : SimCard.t) : Prop :=
  SimCard.status c = "available" ∨ SimCard.status c = "assigned"
  ∨ SimCard.status c = "sold".

#[global] Instance known_status_dec c : Decision (known_status c).
Proof. unfold known_status. apply _. Defined.

(** The [assignedSimCards] column as [create_shop] writes it. *)
Definition empty_list_column (s : Shop.t) : Prop :=
  Shop.assignedSimCards s = "[]".

(** The cards whose [assignedTo] is the shop. *)
Definition cards_of (shop_id : string) (db : DB) : list SimCard.t :=
  filter (λ c, SimCard.assignedTo c = Some shop_id) (simcards db).

(** ** Authentication *)

Module User.
Record t := mk {
  id : string;
  username : string;
  password : string;
  role : string
}.
End User.

(** [id TEXT PRIMARY KEY] and [username TEXT UNIQUE] on users. *)
Definition users_constraint (rows : list User.t) : Prop :=
  NoDup (User.id <$> rows) ∧ NoDup (User.username <$> rows).

#[global] Instance users_constraint_dec rows : Decision (users_constraint rows).
Proof. unfold users_constraint. apply _. Defined.

(** The seeding statement of [init_database]: INSERT OR IGNORE skips the
    row when it would violate a constraint of the table.  [user_id] is the
    [uuid.uuid4()] drawn for the row. *)
Definition init_database (user_id : string) (users : list User.t)
    : list User.t :=
  let rows := users ++ [User.mk user_id "admin" "admin123" "admin"] in
  if decide (users_constraint rows) then rows else users.

Module LoginRequest.
Record t := mk {
  username : string;
  password : string
}.
End LoginRequest.

(** The ["user"] object of the login response. *)
Record LoginUser := mkLoginUser {
  lu_id : string;
  lu_username : string;
  lu_role : string
}.

Record LoginResponse := mkLoginResponse {
  lr_success : bool;
  lr_token : string;
  lr_user : LoginUser
}.

Definition credentials_match (request : LoginRequest.t) (u : User.t) : Prop :=
  User.username u = LoginRequest.username request
  ∧ User.password u = LoginRequest.password request.

#[global] Instance credentials_match_dec request u :
  Decision (credentials_match request u).
Proof. unfold credentials_match. apply _. Defined.

Definition login (request : LoginRequest.t) (users : list User.t)
    : response LoginResponse :=
  match head (filter (credentials_match request) users) with
  | None => HTTPException 401 "Invalid credentials"
  | Some user =>
      Ok (mkLoginResponse true "test-token-123"
            (mkLoginUser (User.id user) (User.username user)
               (User.role user)))
  end.

(** ** Statistics of one shop *)

Record ShopStats := mkShopStats {
  ss_shopId : string;
  ss_shopName : string;
  ss_assigned : nat;
  ss_sold : nat;
  ss_total : nat
}.

(** [SELECT status, COUNT ... GROUP BY status]: one row per status that
    occurs, with the number of rows that have it. *)
Definition status_counts (rows : list SimCard.t) : list (string * nat) :=
  (λ st, (st, count_status st rows)) <$> remove_dups (SimCard.status <$> rows).

(** One turn of the loop over [stats]. *)
Definition shop_stats_step (result : ShopStats) (stat : string * nat)
    : ShopStats :=
  let result' :=
    if decide (stat.1 = "assigned") then
      mkShopStats (ss_shopId result) (ss_shopName result) stat.2
        (ss_sold result) (ss_total result)
    else if decide (stat.1 = "sold") then
      mkShopStats (ss_shopId result) (ss_shopName result)
        (ss_assigned result) stat.2 (ss_total result)
    else result in
  mkShopStats (ss_shopId result') (ss_shopName result') (ss_assigned result')
    (ss_sold result') (ss_total result' + stat.2).

Definition get_shop_stats (shop_id : string) (db : DB) : response ShopStats :=
  match select_shop shop_id db with
  | None => HTTPException 404 "Shop not found"
  | Some shop =>
      Ok (foldl shop_stats_step
            (mkShopStats shop_id (Shop.name shop) 0 0 0)
            (status_counts
               (filter (λ c, SimCard.assignedTo c = Some shop_id)
                  (simcards db))))
  end.

(** ** Vocabulary of the further properties *)

(** The entry of [results] that [auto_check_simcards] appends for an
    identifier found in [db]. *)
Definition check_result_of (db : DB) (timestamp : datetime)
    (simcard_id : option string) : option CheckResult :=
  match simcard_id with
  | None => None
  | Some sid =>
      match select_simcard sid db with
      | Some simcard =>
          Some (mkCheckResult sid (SimCard.status simcard)
                  (bool_decide (SimCard.status simcard = "sold"))
                  (SimCard.saleDate simcard) timestamp)
      | None => None
      end
  end.

(** ** Sample data *)

Definition demo_shop : Shop.t :=
  Shop.mk "S" "Shop1" "owner" "phone" "street" None None "active" "North"
    "[]" 1.

Definition demo_card (i co st : string) (asg : option string) : SimCard.t :=
  SimCard.mk i co st asg (match asg with Some _ => Some "Shop1" | None => None end) 2 None None.

Definition demo_db : DB :=
  mkDB [demo_shop]
       [demo_card "A" "C1" "assigned" (Some "S");
        demo_card "B" "C2" "available" None].

(** A card created and then sent [{"status": "lost"}]. *)
Definition lost_db : DB :=
  handle (ReqUpdateSimCard "A" (SimCardUpdate.mk None (Some "lost") None None)
            3)
    (handle (ReqCreateSimCard "A" 2 (SimCardCreate.mk "C1")) empty_db).

(** A card created and then sent [{"status": "sold"}], never assigned. *)
Definition unassigned_sale_db : DB :=
  handle (ReqUpdateSimCard "A" (SimCardUpdate.mk None (Some "sold") None None)
            3)
    (handle (ReqCreateSimCard "A" 2 (SimCardCreate.mk "C1")) empty_db).

(** A shop, a card, and the card assigned to the shop. *)
Definition assigned_db : DB :=
  handle (ReqAssign "S" 1)
    (handle (ReqCreateSimCard "A" 2 (SimCardCreate.mk "C1"))
       (handle (ReqCreateShop "S" 1
                  (ShopCreate.mk "Shop1" "owner" "phone" "street" None None
                     "North"))
          empty_db)).

(** * Properties of the handlers *)

(** Closed decidable facts are settled by evaluation. *)
Ltac by_evaluation := apply (bool_decide_unpack _); vm_compute; exact I.

(** ** Tables: SELECT by key and UPDATE *)

Section tables.
Context {A : Type} (key : A → string).

Lemma select_elem_of k rows x :
  head (filter (λ r, key r = k) rows) = Some x → x ∈ rows ∧ key x = k.
Proof.
  intros H%head_Some_elem_of. apply list_elem_of_filter in H. tauto.
Qed.

Lemma select_None k rows :
  head (filter (λ r, key r = k) rows) = None ↔ k ∉ key <$> rows.
Proof.
  rewrite head_None. split.
  - intros H [x [-> Hx]]%list_elem_of_fmap.
    by eapply (filter_nil_not_elem_of _ _ x) in H.
  - intros H. destruct (filter _ rows) as [|x l] eqn:E; [done|].
    assert (Hx : x ∈ filter (λ r, key r = k) rows) by (rewrite E; left).
    apply list_elem_of_filter in Hx as [<- Hx].
    destruct H. by apply list_elem_of_fmap_2.
Qed.

Lemma select_is_Some k rows :
  k ∈ key <$> rows → is_Some (head (filter (λ r, key r = k) rows)).
Proof.
  intros H. destruct (head _) eqn:E; [by eexists|].
  by apply select_None in E.
Qed.

Lemma select_unique rows x :
  NoDup (key <$> rows) → x ∈ rows →
  head (filter (λ r, key r = key x) rows) = Some x.
Proof.
  induction rows as [|a rows IH]; intros Hnd Hx; [by inversion Hx|].
  rewrite fmap_cons in Hnd. apply NoDup_cons in Hnd as [Hn Hnd].
  rewrite filter_cons. apply elem_of_cons in Hx as [->|Hx].
  - by case_decide.
  - rewrite decide_False; [by apply IH|].
    intros E. apply Hn. rewrite E. by apply list_elem_of_fmap_2.
Qed.

Lemma update_where_key (P : A → Prop) `{!∀ x, Decision (P x)} f rows :
  (∀ r, key (f r) = key r) →
  key <$> update_where P f rows = key <$> rows.
Proof.
  intros Hf. unfold update_where. rewrite <- list_fmap_compose.
  apply list_fmap_ext. intros i r _. simpl. by case_decide.
Qed.

Lemma select_update_where (P : A → Prop) `{!∀ x, Decision (P x)} f k rows :
  (∀ r, key (f r) = key r) →
  head (filter (λ r, key r = k) (update_where P f rows))
  = (λ r, if decide (P r) then f r else r)
      <$> head (filter (λ r, key r = k) rows).
Proof.
  intros Hf. induction rows as [|a rows IH]; [done|].
  unfold update_where in *. rewrite fmap_cons, !filter_cons.
  assert (E : key (if decide (P a) then f a else a) = key a)
    by (by case_decide).
  rewrite E. destruct (decide (key a = k)); [done|apply IH].
Qed.

Lemma update_where_none (P : A → Prop) `{!∀ x, Decision (P x)} f rows :
  (∀ r, r ∈ rows → ¬ P r) → update_where P f rows = rows.
Proof.
  intros Hno. unfold update_where. rewrite <- (list_fmap_id rows) at 2.
  apply list_fmap_ext. intros i r Hr. simpl.
  rewrite decide_False; [done|]. eapply Hno, list_elem_of_lookup_2, Hr.
Qed.

End tables.

Lemma update_where_lookup {A} (P : A → Prop) `{!∀ x, Decision (P x)}
    f (rows : list A) i :
  update_where P f rows !! i
  = (λ r, if decide (P r) then f r else r) <$> rows !! i.
Proof. unfold update_where. apply list_lookup_fmap. Qed.

Lemma length_update_where {A} (P : A → Prop) `{!∀ x, Decision (P x)}
    f (rows : list A) :
  length (update_where P f rows) = length rows.
Proof. unfold update_where. apply length_fmap. Qed.

(** ** ORDER BY *)

Lemma insert_desc_Permutation {A} (key : A → Z) x (l : list A) :
  insert_desc key x l ≡ₚ x :: l.
Proof.
  induction l as [|y l IH]; [done|].
  simpl. case_decide; [done|]. rewrite IH. apply Permutation_swap.
Qed.

Lemma order_by_desc_Permutation {A} (key : A → Z) (rows : list A) :
  order_by_desc key rows ≡ₚ rows.
Proof.
  induction rows as [|x rows IH]; [done|].
  simpl. rewrite insert_desc_Permutation. by f_equiv.
Qed.

Lemma insert_desc_sorted {A} (key : A → Z) x (l : list A) :
  StronglySorted (λ a b, (key b ≤ key a)%Z) l →
  StronglySorted (λ a b, (key b ≤ key a)%Z) (insert_desc key x l).
Proof.
  induction 1 as [|y l Hl IH Hy].
  - simpl. constructor; [constructor|done].
  - simpl. case_decide as Hle.
    + constructor; [by constructor|].
      apply Forall_cons. split; [done|].
      eapply Forall_impl; [exact Hy|]. simpl. intros z Hz. lia.
    + constructor; [exact IH|].
      rewrite insert_desc_Permutation. apply Forall_cons. split; [lia|done].
Qed.

Lemma order_by_desc_sorted {A} (key : A → Z) (rows : list A) :
  StronglySorted (λ a b, (key b ≤ key a)%Z) (order_by_desc key rows).
Proof.
  induction rows as [|x rows IH]; [constructor|].
  simpl. by apply insert_desc_sorted.
Qed.

(** ** Deleting a shop *)

(** C3: when the shop exists, [delete_shop] answers success, no row with
    that id is left in [shops], the other shops stay, and every card that
    pointed at the shop is available with [assignedTo] and
    [assignedShopName] NULL while every other card is unchanged; when the
    shop is absent the answer is 404 and the database is unchanged. *)
Theorem delete_shop_cascade (db : DB) (shop_id : string) :
  (shop_id ∈ Shop.id <$> shops db →
   ∃ db',
     delete_shop shop_id db = (db', Ok true)
     ∧ (shop_id ∉ Shop.id <$> shops db')
     ∧ (∀ s, Shop.id s ≠ shop_id → s ∈ shops db' ↔ s ∈ shops db)
     ∧ length (simcards db') = length (simcards db)
     ∧ ∀ i c, simcards db !! i = Some c →
         ∃ c', simcards db' !! i = Some c'
           ∧ SimCard.id c' = SimCard.id c
           ∧ (if decide (SimCard.assignedTo c = Some shop_id)
              then SimCard.status c' = "available"
                   ∧ SimCard.assignedTo c' = None
                   ∧ SimCard.assignedShopName c' = None
              else c' = c))
  ∧ (shop_id ∉ Shop.id <$> shops db →
     delete_shop shop_id db = (db, HTTPException 404 "Shop not found")).
Proof.
  split.
  - intros Hin. unfold delete_shop.
    destruct (select_is_Some Shop.id _ _ Hin) as [shop Hshop].
    unfold select_shop. rewrite Hshop. eexists. split; [done|]. simpl.
    split; [|split; [|split]].
    + intros [s [-> Hs]]%list_elem_of_fmap.
      apply list_elem_of_filter in Hs as [Hne _]. done.
    + intros s Hne. rewrite list_elem_of_filter. tauto.
    + apply length_update_where.
    + intros i c Hc. rewrite update_where_lookup, Hc. simpl.
      eexists. split; [done|]. by case_decide.
  - intros Hnot. unfold delete_shop, select_shop.
    apply (select_None Shop.id) in Hnot. by rewrite Hnot.
Qed.

Lemma delete_shop_cascade_witness :
  (∃ db', delete_shop "S" demo_db = (db', Ok true)
          ∧ "S" ∉ Shop.id <$> shops db')
  ∧ delete_shop "T" demo_db = (demo_db, HTTPException 404 "Shop not found").
Proof.
  split.
  - destruct (proj1 (delete_shop_cascade demo_db "S")) as (db' & E & H & _).
    + vm_compute. left.
    + exists db'. by split.
  - apply (proj2 (delete_shop_cascade demo_db "T")).
    vm_compute. intros H. inversion H as [|? ? ? H1]; inversion H1.
Defined.

(** ** Checking a card *)

Lemma stamp_lastChecked_select simcard_id now db k :
  select_simcard k (stamp_lastChecked simcard_id now db)
  = (λ c, if decide (SimCard.id c = simcard_id)
          then set_lastChecked now c else c) <$> select_simcard k db.
Proof.
  unfold select_simcard, stamp_lastChecked. simpl.
  by apply (select_update_where SimCard.id).
Qed.

Lemma check_simcard_status_found db simcard_id now row :
  select_simcard simcard_id db = Some row →
  check_simcard_status simcard_id now db
  = (stamp_lastChecked simcard_id now db, Ok row)
  ∧ select_simcard simcard_id (stamp_lastChecked simcard_id now db)
    = Some (set_lastChecked now row).
Proof.
  intros Hrow. unfold check_simcard_status. rewrite Hrow. split; [done|].
  rewrite stamp_lastChecked_select, Hrow. simpl.
  apply (select_elem_of SimCard.id) in Hrow as [_ Hid].
  by rewrite decide_True.
Qed.

Lemma check_simcard_status_absent db simcard_id now :
  simcard_id ∉ SimCard.id <$> simcards db →
  check_simcard_status simcard_id now db
  = (db, HTTPException 404 "SimCard not found").
Proof.
  intros Hno. unfold check_simcard_status, select_simcard.
  apply (select_None SimCard.id) in Hno. by rewrite Hno.
Qed.

(** C7: on a database holding card "B", never checked before,
    [check_simcard_status "B"] at clock reading 7 stores
    [lastChecked = 7] on the card and answers with the row as it was
    before the UPDATE, whose [lastChecked] is still NULL. *)
Theorem check_simcard_status_returns_row_before_stamp :
  ∃ db' returned stored,
    check_simcard_status "B" 7 demo_db = (db', Ok returned)
    ∧ select_simcard "B" db' = Some stored
    ∧ SimCard.lastChecked stored = Some 7%Z
    ∧ SimCard.lastChecked returned = None
    ∧ returned ≠ stored.
Proof.
  destruct (check_simcard_status_found demo_db "B" 7
              (demo_card "B" "C2" "available" None)) as [E1 E2]; [done|].
  do 3 eexists. split; [exact E1|]. split; [exact E2|].
  repeat split. discriminate.
Qed.

(** ** Creating a card *)

(** C8: in a database meeting the table constraints, [create_simcard]
    with a code some card already has answers 400 "SimCard code already
    exists" and leaves the database unchanged; with a code no card has
    (and the fresh identifier drawn for the row) it appends exactly one
    row and answers with it: the given code, status available, and
    [assignedTo], [assignedShopName], [saleDate] and [lastChecked] NULL. *)
Theorem create_simcard_unique_code (db : DB) (simcard_id : string)
    (now : datetime) (simcard : SimCardCreate.t) :
  wf_db db →
  (SimCardCreate.code simcard ∈ SimCard.code <$> simcards db →
   create_simcard simcard_id now simcard db
   = (db, HTTPException 400 "SimCard code already exists"))
  ∧ ((SimCardCreate.code simcard ∉ SimCard.code <$> simcards db) →
     (simcard_id ∉ SimCard.id <$> simcards db) →
     ∃ row,
       create_simcard simcard_id now simcard db
       = (mkDB (shops db) (simcards db ++ [row]), Ok row)
       ∧ SimCard.id row = simcard_id
       ∧ SimCard.code row = SimCardCreate.code simcard
       ∧ SimCard.status row = "available"
       ∧ SimCard.assignedTo row = None
       ∧ SimCard.assignedShopName row = None
       ∧ SimCard.saleDate row = None
       ∧ SimCard.lastChecked row = None).
Proof.
  intros (_ & Hids & Hcodes). split.
  - intros Hin. unfold create_simcard. rewrite decide_False; [done|].
    intros [_ Hnd]. rewrite fmap_app in Hnd.
    apply NoDup_app in Hnd as (_ & Hdis & _).
    apply (Hdis _ Hin). simpl. left.
  - intros Hcode Hid. unfold create_simcard.
    set (row := SimCard.mk _ _ _ _ _ _ _ _).
    assert (Hc : simcards_constraint (simcards db ++ [row])).
    { split; rewrite fmap_app; apply NoDup_app; (split; [done|]);
        (split; [|apply NoDup_singleton]);
        intros x Hx ->%list_elem_of_singleton; simpl in Hx; done. }
    rewrite decide_True by done. exists row.
    unfold read_back_simcard, select_simcard. simpl.
    rewrite (select_unique SimCard.id _ row); [done|apply Hc|].
    apply elem_of_app. right. left.
Qed.

Lemma create_simcard_unique_code_witness :
  create_simcard "Z" 9 (SimCardCreate.mk "C2") demo_db
  = (demo_db, HTTPException 400 "SimCard code already exists")
  ∧ ∃ row,
      create_simcard "Z" 9 (SimCardCreate.mk "C3") demo_db
      = (mkDB (shops demo_db) (simcards demo_db ++ [row]), Ok row)
      ∧ SimCard.status row = "available".
Proof.
  assert (Hwf : wf_db demo_db) by by_evaluation.
  split.
  - apply (create_simcard_unique_code demo_db "Z" 9 (SimCardCreate.mk "C2")
             Hwf).
    by_evaluation.
  - destruct (proj2 (create_simcard_unique_code demo_db "Z" 9
                       (SimCardCreate.mk "C3") Hwf))
      as (row & E & _ & _ & Hst & _); [by_evaluation..|].
    exists row. by split.
Defined.

(** ** Assigning cards to a shop *)

Lemma NoDup_key_inj {A} (key : A → string) (l : list A) x y :
  NoDup (key <$> l) → x ∈ l → y ∈ l → key x = key y → x = y.
Proof.
  intros Hnd Hx Hy E.
  pose proof (select_unique key l x Hnd Hx) as Ex.
  pose proof (select_unique key l y Hnd Hy) as Ey.
  rewrite E in Ex. congruence.
Qed.

Lemma sql_limit_sublist {A} n (l : list A) : sql_limit n l `sublist_of` l.
Proof. unfold sql_limit. case_decide; [done|apply sublist_take]. Qed.

Lemma length_sql_limit {A} n (l : list A) :
  (0 ≤ n)%Z → length (sql_limit n l) = Z.to_nat n `min` length l.
Proof.
  intros Hn. unfold sql_limit. rewrite decide_False by lia.
  apply length_take.
Qed.

Lemma sql_limit_negative {A} n (l : list A) : (n < 0)%Z → sql_limit n l = l.
Proof. intros Hn. unfold sql_limit. by rewrite decide_True. Qed.

Lemma foldl_assign_one shopId shop_name selected db :
  shops (foldl (assign_one shopId shop_name) db selected) = shops db
  ∧ simcards (foldl (assign_one shopId shop_name) db selected)
    = update_where (λ c, SimCard.id c ∈ SimCard.id <$> selected)
        (assign_simcard shopId shop_name) (simcards db).
Proof.
  revert db. induction selected as [|s selected IH]; intros db; simpl.
  - split; [done|]. symmetry. apply update_where_none.
    intros r _ Hr. by apply elem_of_nil in Hr.
  - destruct (IH (assign_one shopId shop_name db s)) as [-> ->].
    split; [done|]. simpl. unfold update_where.
    rewrite <- list_fmap_compose. apply list_fmap_ext. intros i r _. simpl.
    change (SimCard.id <$> s :: selected)
      with (SimCard.id s :: (SimCard.id <$> selected)).
    destruct (decide (SimCard.id r = SimCard.id s)) as [E|E].
    + rewrite (decide_True (P := SimCard.id r ∈ SimCard.id s :: _));
        [by case_decide|rewrite E; left].
    + destruct (decide (SimCard.id r ∈ SimCard.id <$> selected)) as [Hs|Hs].
      * rewrite decide_True; [done|by right].
      * rewrite decide_False; [done|].
        intros [?|?]%elem_of_cons; done.
Qed.

(** C1: in a database meeting the table constraints, for a shop that
    exists and a count [0 ≤ count < 2 ^ 63] (one that SQLite can bind):
    when fewer than [count] cards are
    available the answer is 400 "Only k simcards available" and the
    database is unchanged; otherwise exactly [count] distinct table rows
    are selected, each available before the call, every selected row
    becomes assigned to the shop under the shop's current name with its
    other columns kept, every other row and the shops table are
    unchanged, and the answer lists the selected cards. *)
Theorem assign_simcards_all_or_nothing (db : DB) (shopId : string)
    (count : Z) (shop : Shop.t) :
  wf_db db →
  select_shop shopId db = Some shop →
  (0 ≤ count < 2 ^ 63)%Z →
  ((Z.of_nat (count_status "available" (simcards db)) < count)%Z →
   assign_simcards_to_shop shopId count db
   = (db, HTTPException 400
            ("Only " +:+ pretty (count_status "available" (simcards db))
             +:+ " simcards available")))
  ∧ ((count ≤ Z.of_nat (count_status "available" (simcards db)))%Z →
     ∃ db' selected,
       assign_simcards_to_shop shopId count db
       = (db', Ok (assigned_card shopId (Shop.name shop) <$> selected))
       ∧ Z.of_nat (length selected) = count
       ∧ NoDup selected
       ∧ (∀ c, c ∈ selected →
               c ∈ simcards db ∧ SimCard.status c = "available")
       ∧ shops db' = shops db
       ∧ length (simcards db') = length (simcards db)
       ∧ ∀ i c, simcards db !! i = Some c →
           ∃ c', simcards db' !! i = Some c'
             ∧ (c ∈ selected →
                c' = SimCard.mk (SimCard.id c) (SimCard.code c) "assigned"
                       (Some shopId) (Some (Shop.name shop))
                       (SimCard.addedDate c) (SimCard.saleDate c)
                       (SimCard.lastChecked c))
             ∧ (c ∉ selected → c' = c)).
Proof.
  intros (_ & Hids & _) Hshop [Hcount Hbound].
  unfold assign_simcards_to_shop, count_status. rewrite Hshop.
  rewrite (decide_True (P := sqlite_int64 count))
    by (unfold sqlite_int64; lia).
  fold is_available.
  change (filter (λ c, SimCard.status c = "available") (simcards db))
    with (filter is_available (simcards db)).
  set (avail := filter is_available (simcards db)).
  pose proof (length_sql_limit count avail Hcount) as Hlen.
  split; intros Hcmp.
  - rewrite decide_True by lia.
    replace (length (sql_limit count avail)) with (length avail) by lia.
    done.
  - rewrite decide_False by lia.
    set (selected := sql_limit count avail) in *.
    assert (Hsub : selected `sublist_of` simcards db).
    { etrans; [apply sql_limit_sublist|apply sublist_filter]. }
    assert (Hin : ∀ c, c ∈ selected → c ∈ simcards db ∧ is_available c).
    { intros c Hc. apply (sublist_subseteq _ _ (sql_limit_sublist _ _)) in Hc.
      apply list_elem_of_filter in Hc. tauto. }
    destruct (foldl_assign_one shopId (Shop.name shop) selected db)
      as [Hshops Hcards].
    eexists _, selected. split; [done|].
    split; [lia|]. split.
    { eapply sublist_NoDup; [|exact Hsub]. eapply NoDup_fmap_1, Hids. }
    split; [exact Hin|]. split; [exact Hshops|].
    rewrite Hcards. split; [apply length_update_where|].
    intros i c Hc. rewrite update_where_lookup, Hc. simpl.
    eexists. split; [done|]. split; intros Hsel.
    + rewrite decide_True; [done|]. by apply list_elem_of_fmap_2.
    + rewrite decide_False; [done|].
      intros [s [E Hs]]%list_elem_of_fmap. apply Hsel.
      assert (c = s) as ->; [|done].
      eapply (NoDup_key_inj SimCard.id); eauto.
      * eapply list_elem_of_lookup_2, Hc.
      * by apply Hin.
Qed.

Lemma assign_simcards_all_or_nothing_witness :
  assign_simcards_to_shop "S" 5 demo_db
  = (demo_db, HTTPException 400 "Only 1 simcards available")
  ∧ ∃ db' selected,
      assign_simcards_to_shop "S" 1 demo_db
      = (db', Ok (assigned_card "S" "Shop1" <$> selected))
      ∧ Z.of_nat (length selected) = 1%Z.
Proof.
  assert (Hwf : wf_db demo_db) by by_evaluation.
  assert (Hshop : select_shop "S" demo_db = Some demo_shop) by reflexivity.
  split.
  - apply (assign_simcards_all_or_nothing demo_db "S" 5 demo_shop Hwf Hshop);
      [lia|vm_compute; reflexivity].
  - destruct (proj2 (assign_simcards_all_or_nothing demo_db "S" 1 demo_shop
                       Hwf Hshop ltac:(lia)))
      as (db' & selected & E & Hn & _).
    + vm_compute. congruence.
    + exists db', selected. by split.
Defined.

(** C1, the inputs that refute the claim as stated: with [count = -1] the
    LIMIT is unbounded and the length test passes, so the request is
    answered with success and assigns every available card (here one),
    which is neither [count] cards nor a 400 answer that changes nothing;
    with [count = 2 ^ 63], more than the one available card, the count
    cannot be bound to the LIMIT and the request ends in an uncaught
    [OverflowError] instead of the 400 answer. *)
Lemma assign_simcards_negative_count :
  (∃ db' cards,
     assign_simcards_to_shop "S" (-1) demo_db = (db', Ok cards)
     ∧ Z.of_nat (length cards) ≠ (-1)%Z
     ∧ length cards = count_status "available" (simcards demo_db)
     ∧ db' ≠ demo_db)
  ∧ assign_simcards_to_shop "S" (2 ^ 63) demo_db
    = (demo_db, Uncaught OverflowError).
Proof.
  split; [|vm_compute; reflexivity].
  do 2 eexists. split; [vm_compute; reflexivity|].
  repeat split; vm_compute; congruence.
Qed.

(** ** Partial updates *)

Lemma apply_shop_update_fields shop r :
  shop_sparse_update shop r (foldl apply_shop_set r (shop_update_fields shop)).
Proof.
  destruct r, shop as [[?|] [?|] [?|] [?|] [?|] [?|] [?|] [?|]];
    repeat split.
Qed.

Lemma apply_simcard_update_fields simcard now r :
  simcard_sparse_update simcard now r
    (foldl apply_simcard_set r (simcard_update_fields simcard now)).
Proof.
  destruct r, simcard as [[?|] [st|] [?|] [?|]]; unfold simcard_sparse_update;
    simpl; try destruct (decide (st = "sold")) as [->|?]; simpl;
    repeat split; try done;
    rewrite decide_False; congruence.
Qed.

Lemma split_by_key {A} (key : A → string) (rows : list A) k row :
  NoDup (key <$> rows) →
  head (filter (λ r, key r = k) rows) = Some row →
  ∃ l1 l2, rows = l1 ++ row :: l2 ∧ ∀ o, o ∈ l1 ++ l2 → key o ≠ k.
Proof.
  intros Hnd [Hin <-]%select_elem_of.
  apply list_elem_of_split in Hin as (l1 & l2 & ->).
  exists l1, l2. split; [done|].
  rewrite fmap_app, fmap_cons in Hnd.
  apply NoDup_app in Hnd as (_ & Hdis & [Hn2 _]%NoDup_cons).
  intros o [Ho|Ho]%elem_of_app E.
  - apply (Hdis (key o)); [by apply list_elem_of_fmap_2|]. rewrite E. left.
  - apply Hn2. rewrite <- E. by apply list_elem_of_fmap_2.
Qed.

Lemma update_where_split {A} (key : A → string) f l1 row l2 :
  (∀ o, o ∈ l1 ++ l2 → key o ≠ key row) →
  update_where (λ r, key r = key row) f (l1 ++ row :: l2)
  = l1 ++ f row :: l2.
Proof.
  intros Hne. unfold update_where. rewrite fmap_app, fmap_cons.
  rewrite decide_True by done. f_equal; [|f_equal].
  - apply (update_where_none (λ r, key r = key row)).
    intros r Hr. apply Hne, elem_of_app. by left.
  - apply (update_where_none (λ r, key r = key row)).
    intros r Hr. apply Hne, elem_of_app. by right.
Qed.

Lemma NoDup_replace_middle {A} (l1 l2 : list A) x y :
  NoDup (l1 ++ x :: l2) → (NoDup (l1 ++ y :: l2) ↔ y ∉ l1 ++ l2).
Proof.
  intros Hnd.
  assert (Hp : ∀ z, l1 ++ z :: l2 ≡ₚ z :: (l1 ++ l2))
    by (intros z; by rewrite Permutation_middle).
  rewrite Hp in Hnd. rewrite Hp. apply NoDup_cons in Hnd as [_ Hnd].
  rewrite NoDup_cons. tauto.
Qed.

Lemma update_constraint_iff db simcard_id simcard now row l1 l2 :
  simcards db = l1 ++ row :: l2 →
  (∀ o, o ∈ l1 ++ l2 → SimCard.id o ≠ simcard_id) →
  SimCard.id row = simcard_id →
  simcards_constraint (simcards db) →
  simcards_constraint
    (l1 ++ foldl apply_simcard_set row (simcard_update_fields simcard now)
        :: l2)
  ↔ ¬ code_taken_by_other simcard_id simcard db.
Proof.
  intros Hrows Hothers Hid [Hids Hcodes].
  destruct (apply_simcard_update_fields simcard now row)
    as (Eid & _ & _ & Hcode & _).
  set (row' := foldl _ _ _) in *. simpl in Eid, Hcode.
  unfold simcards_constraint, code_taken_by_other.
  rewrite Hrows in *. rewrite !fmap_app, !fmap_cons in *. rewrite Eid.
  assert (Hold : SimCard.code row ∉ (SimCard.code <$> l1 ++ l2)).
  { rewrite fmap_app. by apply (NoDup_replace_middle _ _ (SimCard.code row)). }
  split.
  - intros [_ Hnd] Htaken.
    destruct (SimCardUpdate.code simcard) as [v|]; [|done]. simpl in Hcode.
    apply Exists_exists in Htaken as (o & Ho & Hne & Ev).
    apply (NoDup_replace_middle _ _ (SimCard.code row)) in Hnd; [|done].
    apply Hnd. rewrite Hcode, <- Ev, <- fmap_app. apply list_elem_of_fmap_2.
    apply elem_of_app in Ho as [Ho|[->|Ho]%elem_of_cons]; [|done|];
      apply elem_of_app; auto.
  - intros Hnt. split; [done|].
    apply (NoDup_replace_middle _ _ (SimCard.code row)); [done|].
    rewrite <- fmap_app. intros Hin.
    destruct (SimCardUpdate.code simcard) as [v|]; simpl in Hcode.
    + apply Hnt. apply list_elem_of_fmap in Hin as (o & E & Ho).
      apply Exists_exists. exists o. split; [|split].
      * apply elem_of_app in Ho as [Ho|Ho]; apply elem_of_app;
          [by left|right; by right].
      * by apply Hothers.
      * congruence.
    + apply Hold. by rewrite <- Hcode.
Qed.

Lemma simcard_update_fields_nil simcard now :
  simcard_update_fields simcard now = [] → simcard = empty_simcard_update.
Proof. by destruct simcard as [[?|] [?|] [?|] [?|]]. Qed.

Lemma update_simcard_result db simcard_id simcard now row :
  wf_db db →
  select_simcard simcard_id db = Some row →
  (code_taken_by_other simcard_id simcard db →
   update_simcard simcard_id simcard now db = (db, Uncaught IntegrityError))
  ∧ (¬ code_taken_by_other simcard_id simcard db →
     ∃ db',
       update_simcard simcard_id simcard now db
       = (db', Ok (foldl apply_simcard_set row
                     (simcard_update_fields simcard now)))
       ∧ select_simcard simcard_id db'
         = Some (foldl apply_simcard_set row
                   (simcard_update_fields simcard now))
       ∧ shops db' = shops db
       ∧ length (simcards db') = length (simcards db)
       ∧ (∀ i c, simcards db !! i = Some c → SimCard.id c ≠ simcard_id →
                 simcards db' !! i = Some c)).
Proof.
  intros (_ & Hc) Hsel.
  destruct (split_by_key SimCard.id _ _ _ (proj1 Hc) Hsel)
    as (l1 & l2 & Hrows & Hothers).
  pose proof (select_elem_of SimCard.id _ _ _ Hsel) as [_ Hid].
  pose proof (update_constraint_iff db simcard_id simcard now row l1 l2
                Hrows Hothers Hid Hc) as Hiff.
  unfold update_simcard. rewrite Hsel.
  destruct (simcard_update_fields simcard now) as [|a fields] eqn:Ef.
  - apply simcard_update_fields_nil in Ef as ->. split; [done|].
    intros _. exists db. unfold read_back_simcard. rewrite Hsel. auto.
  - rewrite <- Ef in *. clear Ef a fields.
    set (row' := foldl _ _ _) in *.
    assert (Hupd : update_where (λ c, SimCard.id c = simcard_id)
                     (λ c, foldl apply_simcard_set c
                             (simcard_update_fields simcard now))
                     (simcards db) = l1 ++ row' :: l2).
    { rewrite Hrows, <- Hid. apply (update_where_split SimCard.id).
      by rewrite Hid. }
    split; intros Ht.
    + rewrite decide_False; [done|]. rewrite Hupd.
      intros Hcon. by apply Hiff in Hcon.
    + rewrite decide_True by (rewrite Hupd; by apply Hiff).
      eexists. unfold read_back_simcard.
      assert (Hsel' : select_simcard simcard_id
                        (mkDB (shops db) (l1 ++ row' :: l2)) = Some row').
      { unfold select_simcard. simpl.
        destruct (apply_simcard_update_fields simcard now row) as (Eid & _).
        fold row' in Eid. simpl in Eid.
        rewrite <- Hid, <- Eid.
        apply (select_unique SimCard.id); [by apply Hiff|].
        apply elem_of_app. right. left. }
      rewrite Hupd, Hsel'. split; [done|]. split; [done|]. split; [done|].
      simpl. split.
      * rewrite Hrows, !length_app. done.
      * intros i c Hi Hne. rewrite <- Hupd, update_where_lookup, Hi. simpl.
        by rewrite decide_False.
Qed.

Lemma update_shop_result db shop_id shop row l :
  select_shop shop_id db = Some row →
  json_loads (Shop.assignedSimCards row) = Some l →
  ∃ db',
    update_shop shop_id shop db
    = (db', Ok (mkShopDict (foldl apply_shop_set row (shop_update_fields shop))
                  l))
    ∧ select_shop shop_id db'
      = Some (foldl apply_shop_set row (shop_update_fields shop))
    ∧ simcards db' = simcards db
    ∧ length (shops db') = length (shops db)
    ∧ (∀ i s, shops db !! i = Some s → Shop.id s ≠ shop_id →
              shops db' !! i = Some s)
    ∧ (shop_update_fields shop = [] → db' = db).
Proof.
  intros Hsel Hjson. unfold update_shop. rewrite Hsel.
  pose proof (select_elem_of Shop.id _ _ _ Hsel) as [_ Hid].
  destruct (apply_shop_update_fields shop row) as (Eid & Easc & _).
  simpl in Eid, Easc.
  destruct (shop_update_fields shop) as [|a fields] eqn:Ef.
  - exists db. rewrite Hsel. unfold shop_dict. simpl. rewrite Hjson.
    repeat split; auto.
  - assert (Hnil : shop_update_fields shop ≠ []) by (by rewrite Ef).
    rewrite <- Ef in *. clear Ef a fields.
    eexists. unfold select_shop at 1. simpl.
    rewrite (select_update_where Shop.id).
    2:{ intros r. apply (apply_shop_update_fields shop r). }
    unfold select_shop in Hsel. rewrite Hsel. simpl.
    rewrite decide_True by done. unfold shop_dict.
    cbv beta. rewrite Easc, Hjson.
    split; [done|]. split.
    { unfold select_shop. simpl. rewrite (select_update_where Shop.id).
      - rewrite Hsel. simpl. by rewrite decide_True.
      - intros r. apply (apply_shop_update_fields shop r). }
    split; [done|]. split; [apply length_update_where|]. split; [|done].
    intros i s Hi Hne. simpl. rewrite update_where_lookup, Hi. simpl.
    by rewrite decide_False.
Qed.

(** C2, as the code has it: [update_shop] on an existing shop whose
    [assignedSimCards] column holds the "[]" written at creation (as it
    does in every state the handlers can reach) answers with the row after
    a sparse update: every omitted field and every column outside the
    request keeps its value, a present field takes the value of the
    request (a latitude or longitude as SQLite stores it, NULL for NaN);
    no other shop and no card is touched.  [update_simcard] on an existing
    card does the same, except that a request with status "sold" also
    overwrites [saleDate] with the clock reading, and that a request whose
    code another card holds is rejected with the database unchanged.  With
    an empty payload both answer with the row as it is and leave the
    database unchanged. *)
Theorem partial_update_keeps_omitted_fields :
  (∀ db shop_id shop row,
     select_shop shop_id db = Some row →
     Shop.assignedSimCards row = "[]" →
     (∃ db' row',
        update_shop shop_id shop db = (db', Ok (mkShopDict row' []))
        ∧ select_shop shop_id db' = Some row'
        ∧ shop_sparse_update shop row row'
        ∧ simcards db' = simcards db
        ∧ length (shops db') = length (shops db)
        ∧ (∀ i s, shops db !! i = Some s → Shop.id s ≠ shop_id →
                  shops db' !! i = Some s))
     ∧ update_shop shop_id empty_shop_update db
       = (db, Ok (mkShopDict row [])))
  ∧ (∀ db simcard_id simcard now row,
       wf_db db →
       select_simcard simcard_id db = Some row →
       (code_taken_by_other simcard_id simcard db →
        update_simcard simcard_id simcard now db
        = (db, Uncaught IntegrityError))
       ∧ (¬ code_taken_by_other simcard_id simcard db →
          ∃ db' row',
            update_simcard simcard_id simcard now db = (db', Ok row')
            ∧ select_simcard simcard_id db' = Some row'
            ∧ simcard_sparse_update simcard now row row'
            ∧ shops db' = shops db
            ∧ length (simcards db') = length (simcards db)
            ∧ (∀ i c, simcards db !! i = Some c →
                      SimCard.id c ≠ simcard_id →
                      simcards db' !! i = Some c))
       ∧ update_simcard simcard_id empty_simcard_update now db
         = (db, Ok row)).
Proof.
  split.
  - intros db shop_id shop row Hsel Hcol.
    assert (Hjson : json_loads (Shop.assignedSimCards row) = Some [])
      by (by rewrite Hcol).
    split.
    + destruct (update_shop_result db shop_id shop row [] Hsel Hjson)
        as (db' & E & Hsel' & Hcards & Hlen & Hothers & _).
      exists db', (foldl apply_shop_set row (shop_update_fields shop)).
      repeat (split; [done|]). split; [|done].
      apply apply_shop_update_fields.
    + destruct (update_shop_result db shop_id empty_shop_update row []
                  Hsel Hjson) as (db' & E & _ & _ & _ & _ & Hnil).
      by rewrite <- (Hnil eq_refl) at 2.
  - intros db simcard_id simcard now row Hwf Hsel.
    destruct (update_simcard_result db simcard_id simcard now row Hwf Hsel)
      as [Hrej Hok].
    split; [exact Hrej|]. split.
    + intros Hfree. destruct (Hok Hfree) as (db' & E & Hsel' & Hrest).
      exists db', (foldl apply_simcard_set row
                     (simcard_update_fields simcard now)).
      split; [done|]. split; [done|]. split; [|done].
      apply apply_simcard_update_fields.
    + unfold update_simcard. rewrite Hsel. simpl.
      unfold read_back_simcard. by rewrite Hsel.
Qed.

Lemma partial_update_keeps_omitted_fields_witness :
  (∃ db' row',
     update_shop "S"
       (ShopUpdate.mk (Some "Shop2") None None None (Some PrimFloat.nan) None
          None None)
       demo_db = (db', Ok (mkShopDict row' []))
     ∧ Shop.name row' = "Shop2"
     ∧ Shop.latitude row' = None
     ∧ Shop.region row' = "North")
  ∧ update_simcard "A" empty_simcard_update 9 demo_db
    = (demo_db, Ok (demo_card "A" "C1" "assigned" (Some "S"))).
Proof.
  destruct partial_update_keeps_omitted_fields as [Hshop Hcard]. split.
  - destruct (proj1 (Hshop demo_db "S"
                (ShopUpdate.mk (Some "Shop2") None None None
                   (Some PrimFloat.nan) None None None)
                demo_shop eq_refl eq_refl))
      as (db' & row' & E & _ & Hsp & _).
    exists db', row'. split; [exact E|].
    destruct Hsp as (_ & _ & _ & Hname & _ & _ & _ & Hlat & _ & _ & Hregion).
    simpl in Hname, Hlat, Hregion. by repeat split.
  - apply (Hcard demo_db "A" empty_simcard_update 9%Z
             (demo_card "A" "C1" "assigned" (Some "S")));
      [by_evaluation|reflexivity].
Defined.

(** C2, the input that refutes the claim as stated: the request
    [{"status": "sold"}] names no sale date, yet the card's [saleDate]
    changes from NULL to the clock reading. *)
Lemma update_simcard_sold_changes_saleDate :
  ∃ old db' new,
    select_simcard "A" demo_db = Some old
    ∧ update_simcard "A" (SimCardUpdate.mk None (Some "sold") None None) 9
        demo_db = (db', Ok new)
    ∧ select_simcard "A" db' = Some new
    ∧ SimCard.saleDate old = None
    ∧ SimCard.saleDate new = Some 9%Z.
Proof. do 3 eexists. repeat split; vm_compute; reflexivity. Qed.

(** ** Selling a card *)

(** C4, as the code has it: on an existing card, a request with status
    "sold" whose code no other card holds is answered with the updated
    row, whose [saleDate] is the clock reading of the request whatever it
    was before; it is not earlier than [addedDate] when the clock reading
    is not.  A request with status "sold" whose code another card holds is
    rejected and stamps nothing. *)
Theorem update_simcard_sold_stamps_saleDate (db : DB) (simcard_id : string)
    (simcard : SimCardUpdate.t) (now : datetime) (row : SimCard.t) :
  wf_db db →
  select_simcard simcard_id db = Some row →
  SimCardUpdate.status simcard = Some "sold" →
  (code_taken_by_other simcard_id simcard db →
   update_simcard simcard_id simcard now db = (db, Uncaught IntegrityError))
  ∧ (¬ code_taken_by_other simcard_id simcard db →
     ∃ db' row',
       update_simcard simcard_id simcard now db = (db', Ok row')
       ∧ select_simcard simcard_id db' = Some row'
       ∧ SimCard.status row' = "sold"
       ∧ SimCard.saleDate row' = Some now
       ∧ SimCard.addedDate row' = SimCard.addedDate row
       ∧ ((SimCard.addedDate row ≤ now)%Z →
          ∃ t, SimCard.saleDate row' = Some t
               ∧ (SimCard.addedDate row' ≤ t)%Z)).
Proof.
  intros Hwf Hsel Hsold.
  destruct (update_simcard_result db simcard_id simcard now row Hwf Hsel)
    as [Hrej Hok].
  split; [exact Hrej|]. intros Hfree.
  destruct (Hok Hfree) as (db' & E & Hsel' & _).
  destruct (apply_simcard_update_fields simcard now row)
    as (_ & Hadded & _ & _ & Hst & _ & _ & Hsale).
  rewrite Hsold in Hst, Hsale. simpl in Hst. rewrite decide_True in Hsale by done.
  eexists _, _. split; [exact E|]. split; [exact Hsel'|].
  split; [exact Hst|]. split; [exact Hsale|]. split; [exact Hadded|].
  intros Hclock. exists now. split; [exact Hsale|]. by rewrite Hadded.
Qed.

Lemma update_simcard_sold_stamps_saleDate_witness :
  ∃ db' row',
    update_simcard "A" (SimCardUpdate.mk None (Some "sold") None None) 9
      demo_db = (db', Ok row')
    ∧ SimCard.saleDate row' = Some 9%Z.
Proof.
  destruct (proj2 (update_simcard_sold_stamps_saleDate demo_db "A"
                     (SimCardUpdate.mk None (Some "sold") None None) 9
                     (demo_card "A" "C1" "assigned" (Some "S"))
                     ltac:(by_evaluation) eq_refl eq_refl))
    as (db' & row' & E & _ & _ & Hsale & _).
  - by_evaluation.
  - by exists db', row'.
Defined.

(** C4, the inputs that refute the claim as stated: at a clock reading
    earlier than the card's [addedDate] the stamped [saleDate] is earlier
    than [addedDate]; and a request with status "sold" that also carries
    the code of another card is rejected, leaving [saleDate] NULL. *)
Lemma update_simcard_sold_not_after_addedDate :
  (∃ db' row',
     update_simcard "A" (SimCardUpdate.mk None (Some "sold") None None) 1
       demo_db = (db', Ok row')
     ∧ SimCard.saleDate row' = Some 1%Z
     ∧ SimCard.addedDate row' = 2%Z)
  ∧ update_simcard "A" (SimCardUpdate.mk (Some "C2") (Some "sold") None None)
      9 demo_db = (demo_db, Uncaught IntegrityError)
  ∧ (SimCard.saleDate <$> select_simcard "A" demo_db) = Some None.
Proof.
  split; [do 2 eexists|]; repeat split; vm_compute; reflexivity.
Qed.

(** ** Global statistics *)

Lemma count_status_partition rows :
  length rows
  = count_status "available" rows + count_status "assigned" rows
    + count_status "sold" rows + length (filter (λ c, ¬ known_status c) rows).
Proof.
  unfold count_status. induction rows as [|c rows IH]; [done|].
  rewrite !filter_cons. unfold known_status at 1.
  repeat case_decide; simpl; rewrite IH; try lia;
    exfalso; intuition congruence.
Qed.

Lemma filter_unknown_nil rows :
  length (filter (λ c, ¬ known_status c) rows) = 0
  ↔ Forall known_status rows.
Proof.
  split.
  - intros H%nil_length_inv. apply Forall_forall. intros c Hc.
    apply dec_stable. intros Hn.
    eapply filter_nil_not_elem_of; [exact H|exact Hn|exact Hc].
  - intros Hall. induction Hall as [|c rows Hc _ IH]; [done|].
    rewrite filter_cons. by rewrite decide_False by tauto.
Qed.

(** C6, as the code has it: [totalSimCards] counts every row, so it is the
    sum of the available, assigned and sold counters plus the number of
    cards whose status is none of the three; it equals the sum of the three
    counters exactly when every card has one of the three statuses. *)
Theorem get_statistics_total (db : DB) :
  Statistics.totalSimCards (get_statistics db)
  = Statistics.availableSimCards (get_statistics db)
    + Statistics.assignedSimCards (get_statistics db)
    + Statistics.soldSimCards (get_statistics db)
    + length (filter (λ c, ¬ known_status c) (simcards db))
  ∧ (Statistics.totalSimCards (get_statistics db)
     = Statistics.availableSimCards (get_statistics db)
       + Statistics.assignedSimCards (get_statistics db)
       + Statistics.soldSimCards (get_statistics db)
     ↔ Forall known_status (simcards db)).
Proof.
  simpl. pose proof (count_status_partition (simcards db)) as Hp.
  split; [exact Hp|]. rewrite <- filter_unknown_nil. lia.
Qed.

(** C6, the state that refutes the claim as stated: after creating a card
    and updating its status to "lost", [totalSimCards] is 1 while the three
    counters are 0. *)
Lemma get_statistics_total_unknown_status :
  reachable lost_db
  ∧ Statistics.totalSimCards (get_statistics lost_db) = 1
  ∧ Statistics.availableSimCards (get_statistics lost_db)
    + Statistics.assignedSimCards (get_statistics lost_db)
    + Statistics.soldSimCards (get_statistics lost_db) = 0.
Proof.
  split; [|split; vm_compute; reflexivity].
  unfold lost_db. apply reach_step; [|done].
  apply reach_step; [|done]. apply reach_init.
Qed.

(** ** Per-shop sales statistics *)

Lemma dict_of_snoc {V} (rows : list (string * V)) kv :
  dict_of (rows ++ [kv]) = <[kv.1 := kv.2]> (dict_of rows).
Proof. unfold dict_of. by rewrite foldl_app. Qed.

Lemma dict_of_lookup_None {V} (rows : list (string * V)) k :
  k ∉ rows.*1 → dict_of rows !! k = None.
Proof.
  induction rows as [|kv rows IH] using rev_ind; intros Hk; [done|].
  rewrite fmap_app in Hk. apply not_elem_of_app in Hk as [Hk1 Hk2].
  rewrite dict_of_snoc, lookup_insert_ne; [by apply IH|].
  intros E. apply Hk2. rewrite <- E. simpl. left.
Qed.

Lemma dict_of_lookup {V} (rows : list (string * V)) k v :
  NoDup rows.*1 → (k, v) ∈ rows → dict_of rows !! k = Some v.
Proof.
  induction rows as [|kv rows IH] using rev_ind; intros Hnd Hin.
  { by apply elem_of_nil in Hin. }
  rewrite fmap_app in Hnd. apply NoDup_app in Hnd as (Hnd & Hdis & _).
  rewrite dict_of_snoc.
  apply elem_of_app in Hin as [Hin| <-%list_elem_of_singleton].
  - rewrite lookup_insert_ne; [by apply IH|].
    intros E. apply (Hdis k).
    + by apply (list_elem_of_fmap_2 fst _ (k, v)).
    + rewrite <- E. simpl. left.
  - by rewrite lookup_insert_eq.
Qed.

Lemma length_filter_fmap {A B} (f : A → B) (P : B → Prop)
    `{!∀ x, Decision (P x)} (l : list A) :
  length (filter P (f <$> l)) = length (filter (λ x, P (f x)) l).
Proof.
  induction l as [|x l IH]; [done|].
  rewrite fmap_cons, !filter_cons. case_decide; simpl; by rewrite IH.
Qed.

(** The rows that the join produces for one shop. *)
Lemma left_join_cons s ss cs :
  left_join (s :: ss) cs = left_join [s] cs ++ left_join ss cs.
Proof. unfold left_join. rewrite !bind_cons. simpl. by rewrite app_nil_r. Qed.

Lemma left_join_app l1 l2 cs :
  left_join (l1 ++ l2) cs = left_join l1 cs ++ left_join l2 cs.
Proof. unfold left_join. apply bind_app. Qed.

Lemma left_join_elem_of r ss cs :
  r ∈ left_join ss cs → r.1 ∈ ss.
Proof.
  unfold left_join. intros (s & Hr & Hs)%list_elem_of_bind.
  destruct (filter _ cs) as [|c m].
  - by apply list_elem_of_singleton in Hr as ->.
  - by apply list_elem_of_fmap in Hr as (c' & -> & _).
Qed.

Lemma left_join_shop s cs :
  ∃ r, r ∈ left_join [s] cs ∧ r.1 = s.
Proof.
  unfold left_join. rewrite bind_singleton.
  destruct (filter _ cs) as [|c m].
  - exists (s, None). split; [left|done].
  - exists (s, Some c). split; [left|done].
Qed.

Lemma left_join_count_status st s cs :
  length (filter (joined_status st) (left_join [s] cs))
  = count_status st
      (filter (λ c, SimCard.assignedTo c = Some (Shop.id s)) cs).
Proof.
  unfold left_join, count_status. rewrite bind_singleton.
  destruct (filter _ cs) as [|c m]; [done|].
  rewrite (length_filter_fmap (λ c, (s, Some c))).
  reflexivity.
Qed.

Lemma left_join_count_total s cs :
  length (filter (λ r, is_Some r.2) (left_join [s] cs))
  = length (filter (λ c, SimCard.assignedTo c = Some (Shop.id s)) cs).
Proof.
  unfold left_join. rewrite bind_singleton.
  destruct (filter _ cs) as [|c m]; [done|].
  rewrite (length_filter_fmap (λ c, (s, Some c))).
  induction (c :: m) as [|x l IH]; [done|].
  rewrite filter_cons, decide_True; [|by eexists].
  cbn [length]. f_equal. exact IH.
Qed.

Lemma filter_none {A} (P : A → Prop) `{!∀ x, Decision (P x)} (l : list A) :
  (∀ x, x ∈ l → ¬ P x) → filter P l = [].
Proof.
  intros Hno. induction l as [|x l IH]; [done|].
  rewrite filter_cons, decide_False; [|apply Hno; left].
  apply IH. intros y Hy. apply Hno. by right.
Qed.

Lemma filter_all {A} (P : A → Prop) `{!∀ x, Decision (P x)} (l : list A) :
  (∀ x, x ∈ l → P x) → filter P l = l.
Proof.
  intros Hall. induction l as [|x l IH]; [done|].
  rewrite filter_cons, decide_True; [|apply Hall; left].
  f_equal. apply IH. intros y Hy. apply Hall. by right.
Qed.

Lemma left_join_mono s ss cs r :
  s ∈ ss → r ∈ left_join [s] cs → r ∈ left_join ss cs.
Proof.
  unfold left_join. rewrite bind_singleton. intros Hs Hr.
  apply list_elem_of_bind. by exists s.
Qed.

(** With unique shop ids, the group of a shop's key is the join rows of
    that shop. *)
Lemma group_of_shop ss cs s :
  NoDup (Shop.id <$> ss) → s ∈ ss →
  filter (λ r, group_key r = (Shop.id s, Shop.name s)) (left_join ss cs)
  = left_join [s] cs.
Proof.
  intros Hnd Hs.
  destruct (split_by_key Shop.id ss (Shop.id s) s Hnd
              (select_unique Shop.id ss s Hnd Hs))
    as (l1 & l2 & -> & Hothers).
  rewrite left_join_app, left_join_cons, !filter_app.
  assert (Hout : ∀ l, (∀ o, o ∈ l → o ∈ l1 ++ l2) →
            filter (λ r, group_key r = (Shop.id s, Shop.name s))
              (left_join l cs) = []).
  { intros l Hl. apply filter_none. intros r Hr%left_join_elem_of E.
    apply (Hothers r.1); [by apply Hl|]. unfold group_key in E. congruence. }
  rewrite (Hout l1), (Hout l2); try (intros o Ho; apply elem_of_app; auto).
  rewrite app_nil_r. cbn [app]. apply filter_all.
  intros r Hr%left_join_elem_of. apply list_elem_of_singleton in Hr.
  unfold group_key. by rewrite Hr.
Qed.

Lemma shop_sales_rows_keys db k :
  k ∈ (shop_sales_rows db).*1 → k ∈ Shop.id <$> shops db.
Proof.
  unfold shop_sales_rows. rewrite <- list_fmap_compose.
  intros (key & -> & Hkey)%list_elem_of_fmap.
  apply elem_of_remove_dups, list_elem_of_fmap in Hkey as (r & -> & Hr).
  simpl. apply list_elem_of_fmap_2. by eapply left_join_elem_of.
Qed.

Lemma shop_sales_rows_NoDup db :
  NoDup (Shop.id <$> shops db) → NoDup (shop_sales_rows db).*1.
Proof.
  intros Hnd. unfold shop_sales_rows. rewrite <- list_fmap_compose.
  apply NoDup_fmap_2_strong; [|apply NoDup_remove_dups].
  intros k1 k2 Hk1 Hk2 E. simpl in E.
  apply elem_of_remove_dups, list_elem_of_fmap in Hk1 as (r1 & -> & Hr1).
  apply elem_of_remove_dups, list_elem_of_fmap in Hk2 as (r2 & -> & Hr2).
  apply left_join_elem_of in Hr1, Hr2. unfold group_key in *. simpl in E.
  by rewrite (NoDup_key_inj Shop.id _ _ _ Hnd Hr1 Hr2 E).
Qed.

(** C9: in a database meeting the table constraints, the mapping has an
    entry for every shop, whose [sold], [available] (assigned but unsold)
    and [total] are the numbers of the shop's cards with status "sold",
    with status "assigned", and in all; a shop with no card has the entry
    with three zeros; an identifier of no shop has no entry. *)
Theorem get_shop_sales_stats_per_shop (db : DB) :
  wf_db db →
  (∀ s, s ∈ shops db →
        get_shop_sales_stats db !! Shop.id s
        = Some (ShopSales.mk
                  (count_status "sold" (cards_of (Shop.id s) db))
                  (count_status "assigned" (cards_of (Shop.id s) db))
                  (length (cards_of (Shop.id s) db))))
  ∧ (∀ s, s ∈ shops db → cards_of (Shop.id s) db = [] →
          get_shop_sales_stats db !! Shop.id s = Some (ShopSales.mk 0 0 0))
  ∧ (∀ k, (k ∉ Shop.id <$> shops db) → get_shop_sales_stats db !! k = None).
Proof.
  intros (Hshops & _).
  assert (Hentry : ∀ s, s ∈ shops db →
            get_shop_sales_stats db !! Shop.id s
            = Some (ShopSales.mk
                      (count_status "sold" (cards_of (Shop.id s) db))
                      (count_status "assigned" (cards_of (Shop.id s) db))
                      (length (cards_of (Shop.id s) db)))).
  { intros s Hs. unfold get_shop_sales_stats.
    apply dict_of_lookup; [by apply shop_sales_rows_NoDup|].
    unfold shop_sales_rows. apply list_elem_of_fmap.
    exists (Shop.id s, Shop.name s). split.
    - cbv beta zeta. rewrite (group_of_shop _ _ s Hshops Hs).
      by rewrite !left_join_count_status, left_join_count_total.
    - apply elem_of_remove_dups, list_elem_of_fmap.
      destruct (left_join_shop s (simcards db)) as (r & Hr & Er).
      exists r. split; [unfold group_key; by rewrite Er|].
      by eapply left_join_mono. }
  split; [exact Hentry|]. split.
  - intros s Hs Hnone. by rewrite (Hentry s Hs), Hnone.
  - intros k Hk. apply dict_of_lookup_None.
    intros Hin. by apply Hk, shop_sales_rows_keys.
Qed.

Lemma get_shop_sales_stats_per_shop_witness :
  get_shop_sales_stats demo_db !! "S" = Some (ShopSales.mk 0 1 1)
  ∧ get_shop_sales_stats (mkDB [demo_shop] []) !! "S"
    = Some (ShopSales.mk 0 0 0).
Proof.
  split.
  - apply (proj1 (get_shop_sales_stats_per_shop demo_db
                    ltac:(by_evaluation)) demo_shop).
    left.
  - apply (proj1 (proj2 (get_shop_sales_stats_per_shop (mkDB [demo_shop] [])
                           ltac:(by_evaluation))) demo_shop);
      [left|reflexivity].
Defined.

(** ** Invariants of the reachable states *)

Lemma Forall_update_where {A} (P Q : A → Prop) `{!∀ x, Decision (Q x)}
    f (rows : list A) :
  Forall P rows → (∀ r, r ∈ rows → P r → Q r → P (f r)) →
  Forall P (update_where Q f rows).
Proof.
  intros Hall Hf. unfold update_where. apply Forall_fmap, Forall_forall.
  intros r Hr. simpl. pose proof (proj1 (Forall_forall _ _) Hall r Hr).
  case_decide; auto.
Qed.

Lemma Forall_filter_1 {A} (P Q : A → Prop) `{!∀ x, Decision (Q x)}
    (rows : list A) :
  Forall P rows → Forall P (filter Q rows).
Proof.
  rewrite !Forall_forall. intros Hall r Hr%list_elem_of_filter.
  apply Hall, Hr.
Qed.

Lemma auto_check_fold_shops ts l acc :
  shops (foldl (auto_check_one ts) acc l).1 = shops acc.1.
Proof.
  revert acc. induction l as [|a l IH]; intros acc; [done|].
  simpl. rewrite IH. unfold auto_check_one.
  destruct a as [sid|]; [|done]. by destruct (select_simcard sid acc.1).
Qed.

Lemma auto_check_fold_simcards (P : SimCard.t → Prop) ts l acc :
  (∀ c, P c → P (set_lastChecked ts c)) →
  Forall P (simcards acc.1) →
  Forall P (simcards (foldl (auto_check_one ts) acc l).1).
Proof.
  intros Hset. revert acc. induction l as [|a l IH]; intros acc Hacc; [done|].
  simpl. apply IH. unfold auto_check_one.
  destruct a as [sid|]; [|done].
  destruct (select_simcard sid acc.1); [|done].
  simpl. apply Forall_update_where; auto.
Qed.

(** The requests that do not write the shops table. *)
Lemma handle_keeps_shops r db :
  match r with
  | ReqCreateShop _ _ _ | ReqUpdateShop _ _ | ReqDeleteShop _ => True
  | _ => shops (handle r db) = shops db
  end.
Proof.
  destruct r as [| | |i now c|i u now|i|i n|i now|l now]; simpl; try done.
  - unfold create_simcard, read_back_simcard.
    case_decide; [|done]. by destruct (select_simcard _ _).
  - unfold update_simcard, read_back_simcard.
    destruct (select_simcard i db); [|done].
    destruct (simcard_update_fields u now).
    + by destruct (select_simcard i db).
    + case_decide; [|done]. by destruct (select_simcard _ _).
  - unfold delete_simcard. by destruct (select_simcard i db).
  - unfold assign_simcards_to_shop. destruct (select_shop i db); [|done].
    destruct (decide (sqlite_int64 n)); [|done].
    case_decide; [done|]. simpl. apply foldl_assign_one.
  - unfold check_simcard_status. by destruct (select_simcard i db).
  - apply auto_check_fold_shops.
Qed.

(** A property of single cards is kept by a request when the row
    operations of the handlers keep it. *)
Lemma handle_simcards_Forall (P : SimCard.t → Prop) r db :
  (∀ c, P c → P (release_simcard c)) →
  (∀ c now, P c → P (set_lastChecked now c)) →
  (∀ c shopId shop_name, P c → P (assign_simcard shopId shop_name c)) →
  (∀ i code now, P (SimCard.mk i code "available" None None now None None)) →
  match r with
  | ReqUpdateSimCard i u now =>
      ∀ c, c ∈ simcards db → SimCard.id c = i →
           P (foldl apply_simcard_set c (simcard_update_fields u now))
  | _ => True
  end →
  Forall P (simcards db) → Forall P (simcards (handle r db)).
Proof.
  intros Hrel Hset Hasg Hnew Hupd Hall.
  destruct r as [i now s|i s|i|i now c|i u now|i|i n|i now|l now]; simpl.
  - unfold create_shop. case_decide; [|done].
    by destruct (select_shop _ _).
  - unfold update_shop. destruct (select_shop i db); [|done].
    destruct (shop_update_fields s); by destruct (select_shop _ _).
  - unfold delete_shop. destruct (select_shop i db); [|done].
    simpl. apply Forall_update_where; auto.
  - unfold create_simcard, read_back_simcard. case_decide; [|done].
    assert (Forall P (simcards db ++
              [SimCard.mk i (SimCardCreate.code c) "available" None None now
                 None None])).
    { apply Forall_app. split; [done|]. apply Forall_singleton, Hnew. }
    by destruct (select_simcard _ _).
  - unfold update_simcard, read_back_simcard.
    destruct (select_simcard i db); [|done].
    destruct (simcard_update_fields u now) as [|a fields] eqn:Ef.
    + by destruct (select_simcard i db).
    + rewrite <- Ef in *. case_decide; [|done].
      assert (Forall P (update_where (λ c, SimCard.id c = i)
                (λ c, foldl apply_simcard_set c (simcard_update_fields u now))
                (simcards db))).
      { apply Forall_update_where; [done|]. intros r Hr _ Hid.
        by apply Hupd. }
      by destruct (select_simcard _ _).
  - unfold delete_simcard. destruct (select_simcard i db); [|done].
    simpl. by apply Forall_filter_1.
  - unfold assign_simcards_to_shop. destruct (select_shop i db); [|done].
    destruct (decide (sqlite_int64 n)); [|done].
    case_decide; [done|]. simpl.
    rewrite (proj2 (foldl_assign_one _ _ _ _)).
    apply Forall_update_where; auto.
  - unfold check_simcard_status. destruct (select_simcard i db); [|done].
    unfold stamp_lastChecked. simpl. apply Forall_update_where; auto.
  - apply auto_check_fold_simcards; auto.
Qed.

(** C5, as the code has it: the assignment predicate holds in every state
    reached from the initial database by requests other than SimCard
    updates and by SimCard updates whose written row meets the predicate;
    [update_simcard] writes [status] and [assignedTo] independently and
    checks neither against the other. *)
Theorem assignment_invariant_reachable (db : DB) :
  reachable_by consistent_request db → assignment_invariant db.
Proof.
  induction 1 as [|db r _ IH Hguard]; [by apply Forall_nil|].
  unfold assignment_invariant in *.
  apply handle_simcards_Forall.
  - intros c _. split; simpl; [done|]. intros [?|?]; done.
  - intros c now [H1 H2]. split; simpl; auto.
  - intros c shopId shop_name _. split; simpl; [done|by eexists].
  - intros i code now. split; simpl; [done|]. intros [?|?]; done.
  - by destruct r.
  - exact IH.
Qed.

Lemma assignment_invariant_reachable_witness :
  assignment_invariant
    (handle (ReqAssign "S" 1)
       (handle (ReqCreateSimCard "A" 2 (SimCardCreate.mk "C1"))
          (handle (ReqCreateShop "S" 1
                     (ShopCreate.mk "Shop1" "owner" "phone" "street" None
                        None "North"))
             empty_db))).
Proof.
  apply assignment_invariant_reachable.
  repeat (apply reach_step; [|exact I]). apply reach_init.
Defined.

(** C5, the state that refutes the claim as stated: a card is created and
    then updated with [{"status": "sold"}]; it is sold with [assignedTo]
    NULL. *)
Lemma assignment_invariant_broken_by_update :
  reachable unassigned_sale_db
  ∧ ¬ assignment_invariant unassigned_sale_db
  ∧ (∃ c, select_simcard "A" unassigned_sale_db = Some c
          ∧ SimCard.status c = "sold" ∧ SimCard.assignedTo c = None).
Proof.
  split; [|split].
  - unfold unassigned_sale_db. apply reach_step; [|done].
    apply reach_step; [|done]. apply reach_init.
  - intros Hinv. apply Forall_inv in Hinv as [_ Hset].
    destruct Hset as [v Hv]; [by right|]. discriminate.
  - eexists. repeat split; vm_compute; reflexivity.
Qed.

(** ** The denormalised list on a shop *)

Lemma handle_keeps_empty_list_column r db :
  Forall empty_list_column (shops db) →
  Forall empty_list_column (shops (handle r db)).
Proof.
  intros Hall. pose proof (handle_keeps_shops r db) as Hkeep.
  destruct r as [i now s|i s|i| | | | | |]; try (by rewrite Hkeep); simpl.
  - unfold create_shop. case_decide; [|done].
    assert (Forall empty_list_column
              (shops db ++
               [Shop.mk i (ShopCreate.name s) (ShopCreate.ownerName s)
                  (ShopCreate.ownerPhone s) (ShopCreate.address s)
                  (ShopCreate.latitude s ≫= sql_real)
                  (ShopCreate.longitude s ≫= sql_real) "active"
                  (ShopCreate.region s) "[]" now])).
    { apply Forall_app. split; [done|]. by apply Forall_singleton. }
    by destruct (select_shop _ _).
  - unfold update_shop. destruct (select_shop i db); [|done].
    destruct (shop_update_fields s) as [|a fields] eqn:Ef.
    + by destruct (select_shop i db).
    + rewrite <- Ef.
      assert (Forall empty_list_column
                (update_where (λ r, Shop.id r = i)
                   (λ r, foldl apply_shop_set r (shop_update_fields s))
                   (shops db))).
      { apply Forall_update_where; [done|]. intros r _ Hr _.
        unfold empty_list_column.
        by rewrite (proj1 (proj2 (apply_shop_update_fields s r))). }
      by destruct (select_shop _ _).
  - unfold delete_shop. destruct (select_shop i db); [|done].
    simpl. by apply Forall_filter_1.
Qed.

Lemma shop_dicts_empty rows :
  Forall empty_list_column rows →
  shop_dicts rows = Ok ((λ r, mkShopDict r []) <$> rows).
Proof.
  induction 1 as [|r rows Hr _ IH]; [done|].
  simpl. unfold shop_dict. rewrite Hr, IH. reflexivity.
Qed.

(** C10: in every state reached from the initial database by any sequence
    of requests, the [assignedSimCards] column of every shop is the text
    "[]", and [get_shops] answers with every shop of the table, each with
    the empty list. *)
Theorem shop_assignedSimCards_stays_empty (db : DB) :
  reachable db →
  Forall (λ s, Shop.assignedSimCards s = "[]") (shops db)
  ∧ ∃ l, get_shops db = Ok l
         ∧ shop_row <$> l ≡ₚ shops db
         ∧ Forall (λ d, shop_assignedSimCards d = []) l.
Proof.
  intros Hreach.
  assert (Hall : Forall empty_list_column (shops db)).
  { unfold reachable in Hreach.
    induction Hreach as [|db r _ IH _]; [by apply Forall_nil|].
    by apply handle_keeps_empty_list_column. }
  split; [exact Hall|].
  unfold get_shops.
  pose proof (order_by_desc_Permutation Shop.addedDate (shops db)) as Hperm.
  rewrite shop_dicts_empty by (by rewrite Hperm).
  eexists. split; [done|]. split.
  - assert (E : ∀ rows : list Shop.t,
              shop_row <$> ((λ r, mkShopDict r []) <$> rows) = rows).
    { intros rows. induction rows as [|r rows IH]; [done|].
      rewrite !fmap_cons. simpl. by f_equal. }
    by rewrite E.
  - apply Forall_fmap, Forall_forall. done.
Qed.

Lemma shop_assignedSimCards_stays_empty_witness :
  Forall (λ s, Shop.assignedSimCards s = "[]") (shops assigned_db)
  ∧ ∃ l, get_shops assigned_db = Ok l
         ∧ shop_row <$> l ≡ₚ shops assigned_db
         ∧ Forall (λ d, shop_assignedSimCards d = []) l.
Proof.
  apply shop_assignedSimCards_stays_empty.
  unfold assigned_db. repeat (apply reach_step; [|exact I]). apply reach_init.
Defined.

(** ** The table constraints hold in every reachable state *)

Lemma NoDup_fmap_filter {A B} (f : A → B) (P : A → Prop)
    `{!∀ x, Decision (P x)} (l : list A) :
  NoDup (f <$> l) → NoDup (f <$> filter P l).
Proof.
  induction l as [|a l IH]; [done|].
  rewrite fmap_cons, filter_cons. intros [Hn Hnd]%NoDup_cons.
  case_decide; [|by apply IH].
  rewrite fmap_cons. apply NoDup_cons. split; [|by apply IH].
  intros (y & E & Hy%list_elem_of_filter)%list_elem_of_fmap.
  apply Hn. rewrite E. apply list_elem_of_fmap_2, Hy.
Qed.

Lemma simcards_constraint_update_where (Q : SimCard.t → Prop)
    `{!∀ x, Decision (Q x)} f rows :
  (∀ c, SimCard.id (f c) = SimCard.id c) →
  (∀ c, SimCard.code (f c) = SimCard.code c) →
  simcards_constraint rows → simcards_constraint (update_where Q f rows).
Proof.
  intros Hid Hcode Hc. unfold simcards_constraint.
  by rewrite (update_where_key SimCard.id), (update_where_key SimCard.code).
Qed.

Lemma auto_check_fold_constraint ts l acc :
  simcards_constraint (simcards acc.1) →
  simcards_constraint (simcards (foldl (auto_check_one ts) acc l).1).
Proof.
  revert acc. induction l as [|a l IH]; intros acc Hacc; [done|].
  simpl. apply IH. unfold auto_check_one.
  destruct a as [sid|]; [|done].
  destruct (select_simcard sid acc.1); [|done].
  simpl. by apply simcards_constraint_update_where.
Qed.

Lemma handle_preserves_wf r db : wf_db db → wf_db (handle r db).
Proof.
  intros [Hs Hc]. pose proof (handle_keeps_shops r db) as Hkeep.
  destruct r as [i now s|i s|i|i now c|i u now|i|i n|i now|l now]; simpl.
  - unfold create_shop. case_decide; [|done].
    by destruct (select_shop _ _).
  - unfold update_shop. destruct (select_shop i db); [|done].
    assert (Hupd : shops_constraint
                     (update_where (λ r, Shop.id r = i)
                        (λ r, foldl apply_shop_set r (shop_update_fields s))
                        (shops db))).
    { unfold shops_constraint. rewrite (update_where_key Shop.id); [done|].
      intros r. apply (apply_shop_update_fields s r). }
    destruct (shop_update_fields s); by destruct (select_shop _ _).
  - unfold delete_shop. destruct (select_shop i db); [|done].
    split; simpl.
    + by apply NoDup_fmap_filter.
    + by apply simcards_constraint_update_where.
  - unfold create_simcard, read_back_simcard. case_decide; [|done].
    by destruct (select_simcard _ _).
  - unfold update_simcard, read_back_simcard.
    destruct (select_simcard i db); [|done].
    destruct (simcard_update_fields u now).
    + by destruct (select_simcard i db).
    + case_decide; [|done]. by destruct (select_simcard _ _).
  - unfold delete_simcard. destruct (select_simcard i db); [|done].
    split; [done|]. destruct Hc. split; simpl; by apply NoDup_fmap_filter.
  - simpl in Hkeep. split; [unfold shops_constraint; by rewrite Hkeep|].
    unfold assign_simcards_to_shop. destruct (select_shop i db); [|done].
    destruct (decide (sqlite_int64 n)); [|done].
    case_decide; [done|]. simpl.
    rewrite (proj2 (foldl_assign_one _ _ _ _)).
    by apply simcards_constraint_update_where.
  - unfold check_simcard_status. destruct (select_simcard i db); [|done].
    split; [done|]. unfold stamp_lastChecked. simpl.
    by apply simcards_constraint_update_where.
  - simpl in Hkeep. split; [unfold shops_constraint; by rewrite Hkeep|].
    by apply auto_check_fold_constraint.
Qed.

(** X13: in every state reached from the initial database by any
    sequence of requests, shop identifiers are pairwise distinct, card
    identifiers are pairwise distinct and card codes are pairwise
    distinct. *)
Lemma reachable_wf db : reachable db → wf_db db.
Proof.
  unfold reachable. induction 1 as [|db r _ IH _].
  - split; [|split]; apply NoDup_nil_2.
  - by apply handle_preserves_wf.
Qed.

Lemma reachable_wf_witness : wf_db assigned_db.
Proof.
  apply reachable_wf.
  unfold assigned_db. repeat (apply reach_step; [|exact I]). apply reach_init.
Defined.

(** * Further properties of the handlers *)

(** ** Statistics of one shop *)

Lemma if_elem_of_cons {B} (x d : string) (D : list string) (a b : B) :
  (if decide (x ∈ d :: D) then a else b)
  = if decide (x = d) then a else if decide (x ∈ D) then a else b.
Proof.
  destruct (decide (x = d)) as [->|Hne].
  - rewrite decide_True; [done|left].
  - destruct (decide (x ∈ D)) as [Hin|Hout].
    + rewrite decide_True; [done|by right].
    + rewrite decide_False; [done|]. intros [?|?]%elem_of_cons; done.
Qed.

Lemma foldl_shop_stats_step (n : string → nat) (D : list string) r :
  foldl shop_stats_step r ((λ st, (st, n st)) <$> D)
  = mkShopStats (ss_shopId r) (ss_shopName r)
      (if decide ("assigned" ∈ D) then n "assigned" else ss_assigned r)
      (if decide ("sold" ∈ D) then n "sold" else ss_sold r)
      (ss_total r + sum_list (n <$> D)).
Proof.
  revert r. induction D as [|d D IH]; intros r.
  - destruct r. simpl. f_equal. lia.
  - rewrite fmap_cons. cbn [foldl]. rewrite IH, !if_elem_of_cons.
    unfold shop_stats_step. cbn [fst snd].
    destruct (decide (d = "assigned")) as [->|Ha].
    + simpl. f_equal; [by destruct (decide ("assigned" ∈ D))|unfold fmap; lia].
    + rewrite (decide_False (P := "assigned" = d)) by done.
      destruct (decide (d = "sold")) as [->|Hs]; simpl.
      * f_equal; [by destruct (decide ("sold" ∈ D))|unfold fmap; lia].
      * rewrite (decide_False (P := "sold" = d)) by done.
        f_equal. unfold fmap. lia.
Qed.

Lemma length_filter_status_cons d D rows :
  d ∉ D →
  length (filter (λ c, SimCard.status c ∈ d :: D) rows)
  = count_status d rows + length (filter (λ c, SimCard.status c ∈ D) rows).
Proof.
  intros Hd. unfold count_status. induction rows as [|c rows IH]; [done|].
  rewrite !filter_cons, if_elem_of_cons.
  destruct (decide (SimCard.status c = d)) as [E|E].
  - rewrite decide_False by (by rewrite E). cbn [length]. rewrite IH. lia.
  - destruct (decide (SimCard.status c ∈ D)); cbn [length]; rewrite IH; lia.
Qed.

Lemma sum_status_counts D rows :
  NoDup D →
  sum_list ((λ st, count_status st rows) <$> D)
  = length (filter (λ c, SimCard.status c ∈ D) rows).
Proof.
  induction 1 as [|d D Hd _ IH].
  - simpl. rewrite filter_none; [done|]. intros c _. apply not_elem_of_nil.
  - rewrite fmap_cons, length_filter_status_cons by done.
    simpl. by rewrite IH.
Qed.

Lemma count_status_absent st rows :
  st ∉ SimCard.status <$> rows → count_status st rows = 0.
Proof.
  intros Hst. unfold count_status. rewrite filter_none; [done|].
  intros c Hc E. apply Hst. rewrite <- E. by apply list_elem_of_fmap_2.
Qed.

Lemma foldl_status_counts shop_id shop_name rows :
  foldl shop_stats_step (mkShopStats shop_id shop_name 0 0 0)
    (status_counts rows)
  = mkShopStats shop_id shop_name (count_status "assigned" rows)
      (count_status "sold" rows) (length rows).
Proof.
  unfold status_counts.
  rewrite (foldl_shop_stats_step (λ st, count_status st rows)). simpl.
  rewrite sum_status_counts by apply NoDup_remove_dups.
  rewrite (filter_all _ rows)
    by (intros c Hc; by apply elem_of_remove_dups, list_elem_of_fmap_2).
  f_equal.
  - case_decide as Hin; [done|]. symmetry. apply count_status_absent.
    by rewrite <- elem_of_remove_dups.
  - case_decide as Hin; [done|]. symmetry. apply count_status_absent.
    by rewrite <- elem_of_remove_dups.
Qed.

(** X1: [get_shop_stats] on an existing shop answers with the shop's name
    and, over the cards whose [assignedTo] is the shop, the number with
    status "assigned", the number with status "sold" and the number of all
    of them (cards of any other status count in the total only); on an
    absent shop it answers 404. *)
Theorem get_shop_stats_counts (db : DB) (shop_id : string) :
  (∀ shop, select_shop shop_id db = Some shop →
     get_shop_stats shop_id db
     = Ok (mkShopStats shop_id (Shop.name shop)
             (count_status "assigned" (cards_of shop_id db))
             (count_status "sold" (cards_of shop_id db))
             (length (cards_of shop_id db))))
  ∧ ((shop_id ∉ Shop.id <$> shops db) →
     get_shop_stats shop_id db = HTTPException 404 "Shop not found").
Proof.
  split.
  - intros shop Hshop. unfold get_shop_stats. rewrite Hshop.
    by rewrite foldl_status_counts.
  - intros Hno. unfold get_shop_stats, select_shop.
    apply (select_None Shop.id) in Hno. by rewrite Hno.
Qed.

Lemma get_shop_stats_counts_witness :
  get_shop_stats "S" demo_db = Ok (mkShopStats "S" "Shop1" 1 0 1)
  ∧ get_shop_stats "T" demo_db = HTTPException 404 "Shop not found".
Proof.
  split.
  - apply (proj1 (get_shop_stats_counts demo_db "S") demo_shop). reflexivity.
  - apply (proj2 (get_shop_stats_counts demo_db "T")). by_evaluation.
Defined.

Lemma shop_sales_entry db s :
  NoDup (Shop.id <$> shops db) → s ∈ shops db →
  get_shop_sales_stats db !! Shop.id s
  = Some (ShopSales.mk
            (count_status "sold" (cards_of (Shop.id s) db))
            (count_status "assigned" (cards_of (Shop.id s) db))
            (length (cards_of (Shop.id s) db))).
Proof.
  intros Hshops Hs. unfold get_shop_sales_stats.
  apply dict_of_lookup; [by apply shop_sales_rows_NoDup|].
  unfold shop_sales_rows. apply list_elem_of_fmap.
  exists (Shop.id s, Shop.name s). split.
  - cbv beta zeta. rewrite (group_of_shop _ _ s Hshops Hs).
    by rewrite !left_join_count_status, left_join_count_total.
  - apply elem_of_remove_dups, list_elem_of_fmap.
    destruct (left_join_shop s (simcards db)) as (r & Hr & Er).
    exists r. split; [unfold group_key; by rewrite Er|].
    by eapply left_join_mono.
Qed.

(** X2: in a database meeting the table constraints, for every shop the
    answer of [get_shop_stats] and the shop's entry in
    [get_shop_sales_stats] carry the same numbers: [sold] is [sold],
    [assigned] is the entry's [available], [total] is [total]. *)
Theorem shop_stats_agree_with_sales_stats (db : DB) (shop : Shop.t) :
  wf_db db → shop ∈ shops db →
  ∃ st sales,
    get_shop_stats (Shop.id shop) db = Ok st
    ∧ get_shop_sales_stats db !! Shop.id shop = Some sales
    ∧ ss_shopName st = Shop.name shop
    ∧ ss_sold st = ShopSales.sold sales
    ∧ ss_assigned st = ShopSales.available sales
    ∧ ss_total st = ShopSales.total sales.
Proof.
  intros [Hshops _] Hshop.
  pose proof (select_unique Shop.id _ _ Hshops Hshop) as Hsel.
  eexists _, _. split.
  - unfold get_shop_stats, select_shop. rewrite Hsel.
    by rewrite foldl_status_counts.
  - split; [by apply shop_sales_entry|]. done.
Qed.

Lemma shop_stats_agree_with_sales_stats_witness :
  ∃ st sales,
    get_shop_stats "S" demo_db = Ok st
    ∧ get_shop_sales_stats demo_db !! "S" = Some sales
    ∧ ss_assigned st = ShopSales.available sales.
Proof.
  destruct (shop_stats_agree_with_sales_stats demo_db demo_shop
              ltac:(by_evaluation) ltac:(left))
    as (st & sales & E1 & E2 & _ & _ & Ha & _).
  by exists st, sales.
Defined.

(** ** Creating and deleting rows *)

Lemma filter_ne_key_fresh {A} (key : A → string) (rows : list A) k :
  k ∉ key <$> rows → filter (λ r, key r ≠ k) rows = rows.
Proof.
  intros Hk. apply filter_all. intros r Hr E. apply Hk. rewrite <- E.
  by apply list_elem_of_fmap_2.
Qed.

(** X3: in a database meeting the table constraints, [delete_simcard] on
    an existing card answers success and removes exactly that row: the
    rows before and after it stay in place, no remaining row has the
    identifier, and the shops table is untouched; on an absent card it
    answers 404 and changes nothing. *)
Theorem delete_simcard_removes_one_row (db : DB) (simcard_id : string) :
  wf_db db →
  (∀ row, select_simcard simcard_id db = Some row →
     ∃ l1 l2,
       simcards db = l1 ++ row :: l2
       ∧ delete_simcard simcard_id db
         = (mkDB (shops db) (l1 ++ l2), Ok true)
       ∧ simcard_id ∉ SimCard.id <$> l1 ++ l2)
  ∧ ((simcard_id ∉ SimCard.id <$> simcards db) →
     delete_simcard simcard_id db
     = (db, HTTPException 404 "SimCard not found")).
Proof.
  intros (_ & Hids & _). split.
  - intros row Hsel.
    destruct (split_by_key SimCard.id _ _ _ Hids Hsel)
      as (l1 & l2 & Hrows & Hothers).
    pose proof (select_elem_of SimCard.id _ _ _ Hsel) as [_ Hid].
    exists l1, l2. split; [done|].
    assert (Hfresh : simcard_id ∉ SimCard.id <$> l1 ++ l2).
    { intros (o & E & Ho)%list_elem_of_fmap. by apply (Hothers o). }
    split; [|done].
    unfold delete_simcard. rewrite Hsel, Hrows. do 2 f_equal.
    rewrite filter_app, filter_cons, decide_False by (by intros []).
    rewrite <- filter_app. by apply filter_ne_key_fresh.
  - intros Hno. unfold delete_simcard, select_simcard.
    apply (select_None SimCard.id) in Hno. by rewrite Hno.
Qed.

Lemma delete_simcard_removes_one_row_witness :
  (∃ l1 l2,
     simcards demo_db = l1 ++ demo_card "A" "C1" "assigned" (Some "S") :: l2
     ∧ delete_simcard "A" demo_db = (mkDB (shops demo_db) (l1 ++ l2), Ok true)
     ∧ "A" ∉ SimCard.id <$> l1 ++ l2)
  ∧ delete_simcard "Q" demo_db
    = (demo_db, HTTPException 404 "SimCard not found").
Proof.
  pose proof (delete_simcard_removes_one_row demo_db "A"
                ltac:(by_evaluation)) as [Hdel _].
  pose proof (delete_simcard_removes_one_row demo_db "Q"
                ltac:(by_evaluation)) as [_ Habs].
  split.
  - apply Hdel. reflexivity.
  - apply Habs. by_evaluation.
Defined.

Lemma create_simcard_fresh db simcard_id now simcard :
  wf_db db →
  simcard_id ∉ SimCard.id <$> simcards db →
  SimCardCreate.code simcard ∉ SimCard.code <$> simcards db →
  create_simcard simcard_id now simcard db
  = (mkDB (shops db)
       (simcards db ++
        [SimCard.mk simcard_id (SimCardCreate.code simcard) "available" None
           None now None None]),
     Ok (SimCard.mk simcard_id (SimCardCreate.code simcard) "available" None
           None now None None)).
Proof.
  intros (_ & Hids & Hcodes) Hid Hcode. unfold create_simcard.
  set (row := SimCard.mk _ _ _ _ _ _ _ _).
  assert (Hc : simcards_constraint (simcards db ++ [row])).
  { split; rewrite fmap_app; apply NoDup_app; (split; [done|]);
      (split; [|apply NoDup_singleton]);
      intros x Hx ->%list_elem_of_singleton; simpl in Hx; done. }
  rewrite decide_True by done.
  unfold read_back_simcard, select_simcard. simpl.
  rewrite (select_unique SimCard.id _ row); [done|apply Hc|].
  apply elem_of_app. right. left.
Qed.

(** X4: in a database meeting the table constraints, creating a card with
    a fresh identifier and a fresh code and then deleting it by that
    identifier gives back the database as it was. *)
Theorem create_then_delete_simcard (db : DB) (simcard_id : string)
    (now : datetime) (simcard : SimCardCreate.t) :
  wf_db db →
  simcard_id ∉ SimCard.id <$> simcards db →
  SimCardCreate.code simcard ∉ SimCard.code <$> simcards db →
  delete_simcard simcard_id (create_simcard simcard_id now simcard db).1
  = (db, Ok true).
Proof.
  intros Hwf Hid Hcode.
  rewrite (create_simcard_fresh db simcard_id now simcard Hwf Hid Hcode).
  cbn [fst]. unfold delete_simcard, select_simcard. cbn [simcards shops].
  rewrite filter_app, (filter_none _ (simcards db)).
  2:{ intros c Hc E. apply Hid. rewrite <- E. by apply list_elem_of_fmap_2. }
  rewrite filter_cons, decide_True by done. cbn [app head].
  rewrite filter_app, (filter_ne_key_fresh SimCard.id) by done.
  rewrite filter_cons, decide_False by (by intros []).
  rewrite filter_nil, app_nil_r. by destruct db.
Qed.

Lemma create_then_delete_simcard_witness :
  delete_simcard "Z" (create_simcard "Z" 9 (SimCardCreate.mk "C3") demo_db).1
  = (demo_db, Ok true).
Proof.
  apply create_then_delete_simcard; by_evaluation.
Defined.

Lemma create_shop_fresh db shop_id now shop :
  wf_db db →
  shop_id ∉ Shop.id <$> shops db →
  create_shop shop_id now shop db
  = (mkDB
       (shops db ++
        [Shop.mk shop_id (ShopCreate.name shop) (ShopCreate.ownerName shop)
           (ShopCreate.ownerPhone shop) (ShopCreate.address shop)
           (ShopCreate.latitude shop ≫= sql_real)
           (ShopCreate.longitude shop ≫= sql_real) "active"
           (ShopCreate.region shop) "[]" now])
       (simcards db),
     Ok (mkShopDict
           (Shop.mk shop_id (ShopCreate.name shop) (ShopCreate.ownerName shop)
              (ShopCreate.ownerPhone shop) (ShopCreate.address shop)
              (ShopCreate.latitude shop ≫= sql_real)
           (ShopCreate.longitude shop ≫= sql_real) "active"
              (ShopCreate.region shop) "[]" now)
           [])).
Proof.
  intros (Hids & _) Hid. unfold create_shop.
  set (row := Shop.mk _ _ _ _ _ _ _ _ _ _ _).
  assert (Hc : shops_constraint (shops db ++ [row])).
  { unfold shops_constraint. rewrite fmap_app. apply NoDup_app.
    split; [done|]. split; [|apply NoDup_singleton].
    intros x Hx ->%list_elem_of_singleton. done. }
  rewrite decide_True by done.
  unfold select_shop. simpl.
  rewrite (select_unique Shop.id _ row); [done|apply Hc|].
  apply elem_of_app. right. left.
Qed.

(** X5: in a database meeting the table constraints, [create_shop] with an
    identifier no shop has appends exactly one shop row, built from the
    request (latitude and longitude as SQLite stores them: NULL when
    omitted or NaN) with status "active", the column [assignedSimCards]
    "[]" and the clock reading as [addedDate], leaves the cards untouched,
    and
    answers with that row and the empty list; with an identifier some shop
    already has, the INSERT raises [sqlite3.IntegrityError], which the
    handler does not catch, and the database is unchanged. *)
Theorem create_shop_appends (db : DB) (shop_id : string) (now : datetime)
    (shop : ShopCreate.t) :
  wf_db db →
  ((shop_id ∉ Shop.id <$> shops db) →
   ∃ row,
     create_shop shop_id now shop db
     = (mkDB (shops db ++ [row]) (simcards db), Ok (mkShopDict row []))
     ∧ Shop.id row = shop_id
     ∧ Shop.name row = ShopCreate.name shop
     ∧ Shop.ownerName row = ShopCreate.ownerName shop
     ∧ Shop.ownerPhone row = ShopCreate.ownerPhone shop
     ∧ Shop.address row = ShopCreate.address shop
     ∧ Shop.latitude row = ShopCreate.latitude shop ≫= sql_real
     ∧ Shop.longitude row = ShopCreate.longitude shop ≫= sql_real
     ∧ Shop.region row = ShopCreate.region shop
     ∧ Shop.status row = "active"
     ∧ Shop.assignedSimCards row = "[]"
     ∧ Shop.addedDate row = now)
  ∧ (shop_id ∈ Shop.id <$> shops db →
     create_shop shop_id now shop db = (db, Uncaught IntegrityError)).
Proof.
  intros Hwf. split.
  - intros Hid. eexists. split; [by apply create_shop_fresh|]. done.
  - intros Hin. unfold create_shop. rewrite decide_False; [done|].
    unfold shops_constraint. rewrite fmap_app. intros Hnd.
    apply NoDup_app in Hnd as (_ & Hdis & _).
    apply (Hdis _ Hin). simpl. left.
Qed.

Lemma create_shop_appends_witness :
  (∃ row,
     create_shop "T" 5
       (ShopCreate.mk "Shop2" "owner" "phone" "street" None None "South")
       demo_db
     = (mkDB (shops demo_db ++ [row]) (simcards demo_db),
        Ok (mkShopDict row []))
     ∧ Shop.status row = "active")
  ∧ create_shop "S" 5
      (ShopCreate.mk "Shop2" "owner" "phone" "street" None None "South")
      demo_db
    = (demo_db, Uncaught IntegrityError).
Proof.
  pose proof (create_shop_appends demo_db "T" 5
                (ShopCreate.mk "Shop2" "owner" "phone" "street" None None
                   "South") ltac:(by_evaluation)) as [Hnew _].
  pose proof (create_shop_appends demo_db "S" 5
                (ShopCreate.mk "Shop2" "owner" "phone" "street" None None
                   "South") ltac:(by_evaluation)) as [_ Hdup].
  split.
  - destruct Hnew as (row & E & Hrow); [by_evaluation|].
    exists row. split; [exact E|]. apply Hrow.
  - apply Hdup. by_evaluation.
Defined.

(** X6: in a database meeting the table constraints, creating a shop with
    a fresh identifier and then deleting it gives back the database as it
    was, provided no card's [assignedTo] already holds that identifier
    (such a card would be reset by the delete). *)
Theorem create_then_delete_shop (db : DB) (shop_id : string)
    (now : datetime) (shop : ShopCreate.t) :
  wf_db db →
  shop_id ∉ Shop.id <$> shops db →
  (∀ c, c ∈ simcards db → SimCard.assignedTo c ≠ Some shop_id) →
  delete_shop shop_id (create_shop shop_id now shop db).1 = (db, Ok true).
Proof.
  intros Hwf Hid Hfree.
  rewrite (create_shop_fresh db shop_id now shop Hwf Hid).
  cbn [fst]. unfold delete_shop, select_shop. cbn [simcards shops].
  rewrite filter_app, (filter_none _ (shops db)).
  2:{ intros s Hs E. apply Hid. rewrite <- E. by apply list_elem_of_fmap_2. }
  rewrite filter_cons, decide_True by done. cbn [app head].
  rewrite filter_app, (filter_ne_key_fresh Shop.id) by done.
  rewrite filter_cons, decide_False by (by intros []).
  rewrite filter_nil, app_nil_r.
  rewrite update_where_none by done. by destruct db.
Qed.

Lemma create_then_delete_shop_witness :
  delete_shop "T"
    (create_shop "T" 5
       (ShopCreate.mk "Shop2" "owner" "phone" "street" None None "South")
       demo_db).1
  = (demo_db, Ok true).
Proof.
  apply create_then_delete_shop;
    [by_evaluation|by_evaluation|apply Forall_forall; by_evaluation].
Defined.

(** ** The batch check *)

Lemma update_where_ext_in {A} (P Q : A → Prop) `{!∀ x, Decision (P x)}
    `{!∀ x, Decision (Q x)} f (rows : list A) :
  (∀ r, r ∈ rows → P r ↔ Q r) →
  update_where P f rows = update_where Q f rows.
Proof.
  intros Hext. unfold update_where. apply list_fmap_ext. intros i r Hr.
  apply list_elem_of_lookup_2 in Hr. specialize (Hext r Hr).
  destruct (decide (P r)), (decide (Q r)); tauto.
Qed.

Lemma omap_ext_all {A B} (f g : A → option B) (l : list A) :
  (∀ x, f x = g x) → omap f l = omap g l.
Proof.
  intros Hfg. induction l as [|x l IH]; [done|].
  simpl. rewrite Hfg. destruct (g x); [f_equal|]; exact IH.
Qed.

Lemma check_result_of_stamp sid ts db ts' o :
  check_result_of (stamp_lastChecked sid ts db) ts' o
  = check_result_of db ts' o.
Proof.
  unfold check_result_of. destruct o as [k|]; [|done].
  rewrite stamp_lastChecked_select.
  destruct (select_simcard k db) as [c|]; [|done].
  simpl. by case_decide.
Qed.

Lemma auto_check_fold ts ids db res :
  foldl (auto_check_one ts) (db, res) ids
  = (mkDB (shops db)
       (update_where (λ c, Some (SimCard.id c) ∈ ids) (set_lastChecked ts)
          (simcards db)),
     res ++ omap (check_result_of db ts) ids).
Proof.
  revert db res. induction ids as [|o ids IH]; intros db res.
  - simpl. rewrite app_nil_r, update_where_none; [by destruct db|].
    intros r _. apply not_elem_of_nil.
  - cbn [foldl]. destruct o as [sid|]; cbn [auto_check_one fst snd].
    + destruct (select_simcard sid db) as [c|] eqn:E.
      * rewrite IH. f_equal.
        -- f_equal. unfold stamp_lastChecked, update_where. simpl.
           rewrite <- list_fmap_compose. apply list_fmap_ext.
           intros i r _. simpl.
           destruct (decide (SimCard.id r = sid)) as [<-|Hne].
           ++ rewrite (decide_True (P := Some (SimCard.id r) ∈ Some _ :: _));
                [|left]. by case_decide.
           ++ destruct (decide (Some (SimCard.id r) ∈ ids)) as [Hin|Hout].
              ** rewrite decide_True; [done|by right].
              ** rewrite decide_False; [done|].
                 intros [?|?]%elem_of_cons; [congruence|done].
        -- rewrite <- app_assoc. f_equal. simpl.
           unfold check_result_of at 2. rewrite E. f_equal.
           apply omap_ext_all. intros o. apply check_result_of_stamp.
      * rewrite IH. f_equal.
        -- f_equal. apply update_where_ext_in. intros r Hr.
           rewrite elem_of_cons. split; [auto|].
           intros [Heq|?]; [|done]. exfalso.
           apply (select_None SimCard.id) in E. apply E.
           injection Heq as <-. by apply list_elem_of_fmap_2.
        -- simpl. unfold check_result_of at 2. by rewrite E.
    + rewrite IH. f_equal. f_equal. apply update_where_ext_in.
      intros r _. rewrite elem_of_cons. split; [auto|]. by intros [?|?].
Qed.

(** X7: [auto_check_simcards] stamps [lastChecked] with the one batch
    timestamp on exactly the cards whose identifier occurs in the request,
    leaves every other card and the shops as they are, and answers with
    one record per listed identifier that exists, in request order
    (a repeated identifier is reported again), carrying the card's status
    and [saleDate] and the batch timestamp; entries without an ["id"] and
    unknown identifiers are skipped without an error. *)
Theorem auto_check_simcards_stamps_listed (db : DB)
    (ids : list (option string)) (ts : datetime) :
  auto_check_simcards ids ts db
  = (mkDB (shops db)
       (update_where (λ c, Some (SimCard.id c) ∈ ids) (set_lastChecked ts)
          (simcards db)),
     Ok (omap (check_result_of db ts) ids, ts)).
Proof.
  unfold auto_check_simcards. by rewrite auto_check_fold.
Qed.

(** ** Listings *)

(** X8: when the [assignedSimCards] column of every shop holds the "[]"
    that [create_shop] writes, [get_shops] answers with one dictionary per
    shop of the table, ordered by [addedDate] from newest to oldest, each
    carrying its row and the empty list. *)
Theorem get_shops_lists_every_shop (db : DB) :
  Forall (λ s, Shop.assignedSimCards s = "[]") (shops db) →
  ∃ l, get_shops db = Ok l
       ∧ shop_row <$> l ≡ₚ shops db
       ∧ StronglySorted shop_newer (shop_row <$> l)
       ∧ Forall (λ d, shop_assignedSimCards d = []) l.
Proof.
  intros Hall.
  pose proof (order_by_desc_Permutation Shop.addedDate (shops db)) as Hperm.
  assert (E : ∀ rows : list Shop.t,
            shop_row <$> ((λ r, mkShopDict r []) <$> rows) = rows).
  { intros rows. induction rows as [|r rows IH]; [done|].
    rewrite !fmap_cons. simpl. by f_equal. }
  unfold get_shops. rewrite shop_dicts_empty.
  - eexists. split; [done|]. rewrite E. split; [done|]. split.
    + exact (order_by_desc_sorted Shop.addedDate (shops db)).
    + apply Forall_fmap, Forall_forall. done.
  - unfold empty_list_column. by rewrite Hperm.
Qed.

Lemma get_shops_lists_every_shop_witness :
  ∃ l, get_shops demo_db = Ok l ∧ shop_row <$> l ≡ₚ shops demo_db.
Proof.
  destruct (get_shops_lists_every_shop demo_db ltac:(by_evaluation))
    as (l & E & Hp & _).
  by exists l.
Defined.

(** X9: [get_simcards] answers with exactly the rows of the table (a
    permutation of it), ordered by [addedDate] from newest to oldest:
    every row is at least as new as all rows after it. *)
Theorem get_simcards_newest_first (db : DB) :
  get_simcards db ≡ₚ simcards db
  ∧ StronglySorted simcard_newer (get_simcards db).
Proof.
  unfold get_simcards. split.
  - apply order_by_desc_Permutation.
  - exact (order_by_desc_sorted SimCard.addedDate (simcards db)).
Qed.

(** ** Global statistics: shops *)

(** X10: in the answer of [get_statistics], [regionStats] has an entry
    exactly for the regions that at least one shop has, and the entry is
    the (positive) number of shops of that region; [totalShops] is the
    number of shop rows and [activeShops], the number of shops with status
    "active", never exceeds it. *)
Theorem get_statistics_regions (db : DB) (r : string) :
  (r ∈ Shop.region <$> shops db →
   Statistics.regionStats (get_statistics db) !! r
   = Some (length (filter (λ s, Shop.region s = r) (shops db)))
   ∧ 0 < length (filter (λ s, Shop.region s = r) (shops db)))
  ∧ ((r ∉ Shop.region <$> shops db) →
     Statistics.regionStats (get_statistics db) !! r = None)
  ∧ Statistics.totalShops (get_statistics db) = length (shops db)
  ∧ Statistics.activeShops (get_statistics db)
    ≤ Statistics.totalShops (get_statistics db).
Proof.
  simpl.
  set (rows := (λ r, (r, length (filter (λ s, Shop.region s = r) (shops db))))
                 <$> remove_dups (Shop.region <$> shops db)).
  assert (Hfst : rows.*1 = remove_dups (Shop.region <$> shops db)).
  { unfold rows. rewrite <- list_fmap_compose.
    rewrite <- (list_fmap_id (remove_dups _)) at 2.
    by apply list_fmap_ext. }
  split; [|split; [|split]].
  - intros Hin. split.
    + apply dict_of_lookup.
      * rewrite Hfst. apply NoDup_remove_dups.
      * unfold rows. apply list_elem_of_fmap. exists r. split; [done|].
        by apply elem_of_remove_dups.
    + apply list_elem_of_fmap in Hin as (s & -> & Hs).
      assert (Hf : s ∈ filter (λ s', Shop.region s' = Shop.region s)
                         (shops db))
        by (by apply list_elem_of_filter).
      destruct (filter _ (shops db)); [by apply elem_of_nil in Hf|].
      simpl. lia.
  - intros Hout. apply dict_of_lookup_None. rewrite Hfst.
    by rewrite elem_of_remove_dups.
  - done.
  - apply length_filter.
Qed.

Lemma get_statistics_regions_witness :
  Statistics.regionStats (get_statistics demo_db) !! "North" = Some 1
  ∧ Statistics.regionStats (get_statistics demo_db) !! "South" = None.
Proof.
  split.
  - apply (proj1 (get_statistics_regions demo_db "North")). by_evaluation.
  - apply (proj1 (proj2 (get_statistics_regions demo_db "South"))).
    by_evaluation.
Defined.

(** ** Requests on absent rows *)

(** X11: a request that names a shop or a card the tables do not hold is
    answered with 404 and leaves the database unchanged: [update_shop] and
    [assign_simcards_to_shop] for a shop, [update_simcard] and
    [check_simcard_status] for a card. *)
Theorem absent_row_gives_404 (db : DB) (k : string) :
  ((k ∉ Shop.id <$> shops db) →
   (∀ shop, update_shop k shop db = (db, HTTPException 404 "Shop not found"))
   ∧ (∀ count, assign_simcards_to_shop k count db
               = (db, HTTPException 404 "Shop not found")))
  ∧ ((k ∉ SimCard.id <$> simcards db) →
     (∀ simcard now, update_simcard k simcard now db
                     = (db, HTTPException 404 "SimCard not found"))
     ∧ (∀ now, check_simcard_status k now db
               = (db, HTTPException 404 "SimCard not found"))).
Proof.
  split.
  - intros Hno%(select_None Shop.id). split; intros;
      unfold update_shop, assign_simcards_to_shop, select_shop;
      by rewrite Hno.
  - intros Hno%(select_None SimCard.id). split; intros;
      unfold update_simcard, check_simcard_status, select_simcard;
      by rewrite Hno.
Qed.

Lemma absent_row_gives_404_witness :
  assign_simcards_to_shop "T" 1 demo_db
  = (demo_db, HTTPException 404 "Shop not found")
  ∧ check_simcard_status "Q" 7 demo_db
    = (demo_db, HTTPException 404 "SimCard not found").
Proof.
  split.
  - apply (proj1 (absent_row_gives_404 demo_db "T")). by_evaluation.
  - apply (proj2 (absent_row_gives_404 demo_db "Q")). by_evaluation.
Defined.

(** ** Repeating an update *)

Lemma apply_shop_update_fields_idem shop r :
  foldl apply_shop_set (foldl apply_shop_set r (shop_update_fields shop))
    (shop_update_fields shop)
  = foldl apply_shop_set r (shop_update_fields shop).
Proof.
  by destruct r, shop as [[?|] [?|] [?|] [?|] [?|] [?|] [?|] [?|]].
Qed.

Lemma apply_simcard_update_fields_idem simcard now r :
  foldl apply_simcard_set
    (foldl apply_simcard_set r (simcard_update_fields simcard now))
    (simcard_update_fields simcard now)
  = foldl apply_simcard_set r (simcard_update_fields simcard now).
Proof.
  destruct r, simcard as [[?|] [st|] [?|] [?|]]; simpl;
    try destruct (decide (st = "sold")); reflexivity.
Qed.

Lemma update_where_idem {A} (key : A → string) k f (rows : list A) :
  (∀ r, key (f r) = key r) → (∀ r, f (f r) = f r) →
  update_where (λ r, key r = k) f (update_where (λ r, key r = k) f rows)
  = update_where (λ r, key r = k) f rows.
Proof.
  intros Hkey Hidem. unfold update_where. rewrite <- list_fmap_compose.
  apply list_fmap_ext. intros i r _. simpl.
  destruct (decide (key r = k)) as [E|E].
  - rewrite decide_True by (by rewrite Hkey). apply Hidem.
  - by rewrite decide_False.
Qed.

(** X12: sending the same partial update a second time (for a card, at
    the same clock reading) gives the same answer and the same database as
    sending it once, whether the first request succeeded, found no row, or
    was rejected by the UNIQUE constraint on [code]. *)
Theorem partial_update_idempotent :
  (∀ db shop_id shop,
     update_shop shop_id shop (update_shop shop_id shop db).1
     = update_shop shop_id shop db)
  ∧ (∀ db simcard_id simcard now,
       update_simcard simcard_id simcard now
         (update_simcard simcard_id simcard now db).1
       = update_simcard simcard_id simcard now db).
Proof.
  split.
  - intros db shop_id shop. unfold update_shop.
    destruct (select_shop shop_id db) as [row|] eqn:E;
      [|cbn [fst]; by rewrite E].
    pose proof (apply_shop_update_fields_idem shop) as Hidem.
    destruct (shop_update_fields shop) as [|a fs] eqn:Ef.
    + rewrite E. cbn [fst]. by rewrite E.
    + set (f := λ s, foldl apply_shop_set s (a :: fs)) in *.
      set (rows' := update_where _ f (shops db)).
      assert (Hkey : ∀ r, Shop.id (f r) = Shop.id r).
      { intros r. unfold f. rewrite <- Ef.
        apply (apply_shop_update_fields shop r). }
      assert (Hsel : select_shop shop_id (mkDB rows' (simcards db))
                     = Some (f row)).
      { unfold select_shop, rows'. cbn [shops].
        rewrite (select_update_where Shop.id _ f shop_id (shops db) Hkey).
        unfold select_shop in E. rewrite E. simpl.
        apply (select_elem_of Shop.id) in E as [_ E].
        by rewrite decide_True. }
      rewrite Hsel. cbn [fst]. rewrite Hsel. cbn [shops simcards].
      unfold rows'.
      rewrite (update_where_idem Shop.id shop_id f (shops db) Hkey Hidem).
      fold rows'. by rewrite Hsel.
  - intros db simcard_id simcard now. unfold update_simcard.
    destruct (select_simcard simcard_id db) as [row|] eqn:E;
      [|cbn [fst]; by rewrite E].
    pose proof (apply_simcard_update_fields_idem simcard now) as Hidem.
    assert (Hkey0 : ∀ r, SimCard.id
                      (foldl apply_simcard_set r
                         (simcard_update_fields simcard now))
                    = SimCard.id r).
    { intros r. apply (apply_simcard_update_fields simcard now r). }
    destruct (simcard_update_fields simcard now) as [|a fs] eqn:Ef.
    + unfold read_back_simcard. rewrite E. cbn [fst]. by rewrite E.
    + set (f := λ c, foldl apply_simcard_set c (a :: fs)) in *.
      set (rows' := update_where _ f (simcards db)).
      destruct (decide (simcards_constraint rows')) as [Hc|Hc].
      * assert (Hsel : select_simcard simcard_id (mkDB (shops db) rows')
                       = Some (f row)).
        { unfold select_simcard, rows'. cbn [simcards].
          rewrite (select_update_where SimCard.id _ f simcard_id
                     (simcards db) Hkey0).
          unfold select_simcard in E. rewrite E. simpl.
          apply (select_elem_of SimCard.id) in E as [_ E].
          by rewrite decide_True. }
        unfold read_back_simcard. rewrite Hsel. cbn [fst]. rewrite Hsel.
        cbn [shops simcards].
        assert (Hagain : update_where (λ c, SimCard.id c = simcard_id) f rows'
                         = rows')
          by apply (update_where_idem SimCard.id simcard_id f (simcards db)
                      Hkey0 Hidem).
        rewrite Hagain, decide_True by done. by rewrite Hsel.
      * cbn [fst]. rewrite E. fold rows'. by rewrite decide_False.
Qed.

(** ** Assignments and sales in the statistics of a shop *)

Lemma filter_ext_in {A} (P Q : A → Prop) `{!∀ x, Decision (P x)}
    `{!∀ x, Decision (Q x)} (l : list A) :
  (∀ r, r ∈ l → P r ↔ Q r) → filter P l = filter Q l.
Proof.
  intros Hext. induction l as [|x l IH]; [done|].
  rewrite !filter_cons, IH by (intros r Hr; apply Hext; by right).
  pose proof (Hext x ltac:(left)).
  destruct (decide (P x)), (decide (Q x)); tauto.
Qed.

Lemma filter_key_sublist {A} (key : A → string) (sel rows : list A) :
  sel `sublist_of` rows → NoDup (key <$> rows) →
  filter (λ r, key r ∈ key <$> sel) rows = sel.
Proof.
  induction 1 as [|x l1 l2 Hsub IH|x l1 l2 Hsub IH]; [done|..];
    rewrite fmap_cons; intros [Hx Hnd]%NoDup_cons; rewrite filter_cons.
  - rewrite decide_True by (rewrite fmap_cons; left). f_equal.
    etrans; [|apply (IH Hnd)]. apply filter_ext_in. intros r Hr.
    rewrite fmap_cons, elem_of_cons. split; [|auto].
    intros [E|?]; [|done]. destruct Hx. rewrite <- E.
    by apply list_elem_of_fmap_2.
  - rewrite decide_False; [by apply IH|].
    intros (s & E & Hs)%list_elem_of_fmap. apply Hx. rewrite E.
    apply list_elem_of_fmap_2. by eapply sublist_subseteq.
Qed.

Lemma length_filter_update_where_gain {A} (P Q : A → Prop)
    `{!∀ x, Decision (P x)} `{!∀ x, Decision (Q x)} f (rows : list A) :
  (∀ r, r ∈ rows → Q r → ¬ P r ∧ P (f r)) →
  length (filter P (update_where Q f rows))
  = length (filter P rows) + length (filter Q rows).
Proof.
  intros Hq. induction rows as [|x rows IH]; [done|].
  unfold update_where in *. rewrite fmap_cons, !filter_cons.
  pose proof (Hq x ltac:(left)) as Hx.
  assert (IH' := IH ltac:(intros r Hr; apply Hq; by right)).
  destruct (decide (Q x)) as [HQ|HQ].
  - destruct (Hx HQ) as [Hn Hy].
    rewrite (decide_True (P := P (f x))), (decide_False (P := P x)) by done.
    cbn [length]. rewrite IH'. lia.
  - destruct (decide (P x)); cbn [length]; rewrite IH'; lia.
Qed.

Lemma length_filter_update_where_keep {A} (P Q : A → Prop)
    `{!∀ x, Decision (P x)} `{!∀ x, Decision (Q x)} f (rows : list A) :
  (∀ r, r ∈ rows → Q r → P (f r) ↔ P r) →
  length (filter P (update_where Q f rows)) = length (filter P rows).
Proof.
  intros Hq. induction rows as [|x rows IH]; [done|].
  unfold update_where in *. rewrite fmap_cons, !filter_cons.
  pose proof (Hq x ltac:(left)) as Hx.
  assert (IH' := IH ltac:(intros r Hr; apply Hq; by right)).
  destruct (decide (Q x)) as [HQ|HQ].
  - destruct (decide (P (f x))), (decide (P x)); cbn [length];
      rewrite ?IH'; try done; exfalso; tauto.
  - destruct (decide (P x)); cbn [length]; by rewrite ?IH'.
Qed.

Lemma count_status_cards_of st shop_id db :
  count_status st (cards_of shop_id db)
  = length (filter (λ c, SimCard.status c = st
                         ∧ SimCard.assignedTo c = Some shop_id)
              (simcards db)).
Proof. unfold count_status, cards_of. by rewrite list_filter_filter. Qed.

(** X14: in a database meeting the table constraints, after a successful
    [assign_simcards_to_shop] of [count] cards to a shop (that is, of a
    count [0 ≤ count < 2 ^ 63] that SQLite can bind and that does not
    exceed the number of available cards), [get_shop_stats]
    of that shop reports [count] more assigned cards and the same number
    of sold cards; when the assignment predicate held before (an available
    card has no shop), the total grows by [count] as well. *)
Theorem assign_then_shop_stats (db : DB) (shopId : string) (count : Z)
    (shop : Shop.t) :
  wf_db db →
  select_shop shopId db = Some shop →
  (0 ≤ count < 2 ^ 63)%Z →
  (count ≤ Z.of_nat (count_status "available" (simcards db)))%Z →
  ∃ st st',
    get_shop_stats shopId db = Ok st
    ∧ get_shop_stats shopId (assign_simcards_to_shop shopId count db).1
      = Ok st'
    ∧ ss_assigned st' = ss_assigned st + Z.to_nat count
    ∧ ss_sold st' = ss_sold st
    ∧ (assignment_invariant db →
       ss_total st' = ss_total st + Z.to_nat count).
Proof.
  intros (_ & Hids & _) Hshop [Hcount Hbound] Hcmp.
  unfold count_status in Hcmp.
  change (filter (λ c, SimCard.status c = "available") (simcards db))
    with (filter is_available (simcards db)) in Hcmp.
  set (avail := filter is_available (simcards db)) in *.
  set (selected := sql_limit count avail).
  assert (Hlen : length selected = Z.to_nat count).
  { unfold selected. rewrite length_sql_limit by done. lia. }
  assert (Hsub : selected `sublist_of` simcards db).
  { etrans; [apply sql_limit_sublist|apply sublist_filter]. }
  assert (Hin : ∀ c, c ∈ simcards db →
            SimCard.id c ∈ SimCard.id <$> selected → is_available c).
  { intros c Hc (s & E & Hs)%list_elem_of_fmap.
    assert (c = s) as ->.
    { eapply (NoDup_key_inj SimCard.id); eauto.
      by eapply sublist_subseteq. }
    apply (sublist_subseteq _ _ (sql_limit_sublist _ _)) in Hs.
    apply list_elem_of_filter in Hs. tauto. }
  assert (Hq : length (filter (λ c, SimCard.id c ∈ SimCard.id <$> selected)
                         (simcards db)) = Z.to_nat count).
  { by rewrite (filter_key_sublist SimCard.id). }
  destruct (foldl_assign_one shopId (Shop.name shop) selected db)
    as [Hshops Hcards].
  assert (Hdb' : (assign_simcards_to_shop shopId count db).1
                 = foldl (assign_one shopId (Shop.name shop)) db selected).
  { unfold assign_simcards_to_shop. rewrite Hshop.
    rewrite (decide_True (P := sqlite_int64 count))
      by (unfold sqlite_int64; lia).
    fold avail selected. by rewrite decide_False by lia. }
  rewrite Hdb'.
  set (db' := foldl _ db selected) in *.
  assert (Hshop' : select_shop shopId db' = Some shop).
  { unfold select_shop in *. by rewrite Hshops. }
  unfold get_shop_stats. rewrite Hshop, Hshop', !foldl_status_counts.
  fold (cards_of shopId db) (cards_of shopId db').
  eexists _, _. split; [done|]. split; [done|]. cbn [ss_assigned ss_sold ss_total].
  rewrite !count_status_cards_of. unfold cards_of. rewrite Hcards.
  split; [|split].
  - rewrite <- Hq. apply length_filter_update_where_gain.
    intros r Hr HQ. specialize (Hin r Hr HQ). unfold is_available in Hin.
    split; [|done]. intros [E _]. congruence.
  - apply length_filter_update_where_keep.
    intros r Hr HQ. specialize (Hin r Hr HQ). unfold is_available in Hin.
    simpl. split; intros [E _]; congruence.
  - intros Hinv. rewrite <- Hq. apply length_filter_update_where_gain.
    intros r Hr HQ. specialize (Hin r Hr HQ). split; [|done].
    pose proof (proj1 (Forall_forall _ _) Hinv r Hr) as [Hnone _].
    rewrite (Hnone Hin). discriminate.
Qed.

Lemma assign_then_shop_stats_witness :
  ∃ st st',
    get_shop_stats "S" demo_db = Ok st
    ∧ get_shop_stats "S" (assign_simcards_to_shop "S" 1 demo_db).1 = Ok st'
    ∧ ss_assigned st' = ss_assigned st + 1.
Proof.
  destruct (assign_then_shop_stats demo_db "S" 1 demo_shop
              ltac:(by_evaluation) eq_refl ltac:(lia))
    as (st & st' & E & E' & Ha & _).
  - vm_compute. congruence.
  - by exists st, st'.
Defined.

Lemma length_filter_middle {A} (P : A → Prop) `{!∀ x, Decision (P x)}
    (l1 l2 : list A) x :
  length (filter P (l1 ++ x :: l2))
  = length (filter P l1) + (if decide (P x) then 1 else 0)
    + length (filter P l2).
Proof.
  rewrite filter_app, filter_cons, length_app.
  destruct (decide (P x)); cbn [length]; lia.
Qed.

Lemma update_simcard_status_rows db simcard_id st now row :
  wf_db db →
  select_simcard simcard_id db = Some row →
  ∃ l1 l2,
    simcards db = l1 ++ row :: l2
    ∧ (update_simcard simcard_id (SimCardUpdate.mk None (Some st) None None)
         now db).1
      = mkDB (shops db)
          (l1 ++ foldl apply_simcard_set row
                   (simcard_update_fields
                      (SimCardUpdate.mk None (Some st) None None) now)
              :: l2).
Proof.
  intros (_ & Hc) Hsel.
  destruct (split_by_key SimCard.id _ _ _ (proj1 Hc) Hsel)
    as (l1 & l2 & Hrows & Hothers).
  pose proof (select_elem_of SimCard.id _ _ _ Hsel) as [_ Hid].
  set (u := SimCardUpdate.mk None (Some st) None None).
  pose proof (update_constraint_iff db simcard_id u now row l1 l2
                Hrows Hothers Hid Hc) as Hiff.
  assert (Hok : simcards_constraint
                  (l1 ++ foldl apply_simcard_set row
                           (simcard_update_fields u now) :: l2))
    by (apply Hiff; unfold code_taken_by_other; simpl; tauto).
  exists l1, l2. split; [done|].
  unfold update_simcard. rewrite Hsel.
  destruct (simcard_update_fields u now) as [|a fs] eqn:Ef; [done|].
  rewrite <- Ef in *. clear Ef a fs.
  assert (Hupd : update_where (λ c, SimCard.id c = simcard_id)
                   (λ c, foldl apply_simcard_set c
                           (simcard_update_fields u now))
                   (simcards db)
                 = l1 ++ foldl apply_simcard_set row
                           (simcard_update_fields u now) :: l2).
  { rewrite Hrows, <- Hid. apply (update_where_split SimCard.id).
    by rewrite Hid. }
  rewrite Hupd, decide_True by done. unfold read_back_simcard.
  destruct (select_simcard simcard_id (mkDB _ _)); reflexivity.
Qed.

(** X15: in a database meeting the table constraints, when a card that is
    assigned to a shop is updated with [{"status": "sold"}],
    [get_shop_stats] of that shop afterwards reports one assigned card
    less, one sold card more and the same total. *)
Theorem sell_then_shop_stats (db : DB) (simcard_id shopId : string)
    (now : datetime) (row : SimCard.t) (shop : Shop.t) :
  wf_db db →
  select_simcard simcard_id db = Some row →
  SimCard.status row = "assigned" →
  SimCard.assignedTo row = Some shopId →
  select_shop shopId db = Some shop →
  ∃ st st',
    get_shop_stats shopId db = Ok st
    ∧ get_shop_stats shopId
        (update_simcard simcard_id
           (SimCardUpdate.mk None (Some "sold") None None) now db).1
      = Ok st'
    ∧ ss_assigned st = ss_assigned st' + 1
    ∧ ss_sold st' = ss_sold st + 1
    ∧ ss_total st' = ss_total st.
Proof.
  intros Hwf Hsel Hst Hasg Hshop.
  destruct (update_simcard_status_rows db simcard_id "sold" now row Hwf Hsel)
    as (l1 & l2 & Hrows & Hdb').
  destruct (apply_simcard_update_fields
              (SimCardUpdate.mk None (Some "sold") None None) now row)
    as (_ & _ & _ & _ & Hst' & Hasg' & _).
  rewrite Hdb'.
  set (row' := foldl _ _ _) in *. simpl in Hst', Hasg'.
  unfold get_shop_stats, select_shop in *. cbn [shops simcards].
  rewrite Hshop, !foldl_status_counts.
  eexists _, _. split; [done|]. split; [done|].
  cbn [ss_assigned ss_sold ss_total].
  unfold count_status. rewrite !list_filter_filter, Hrows.
  rewrite !length_filter_middle.
  rewrite (decide_True (P := SimCard.status row = "assigned" ∧ _)) by done.
  rewrite (decide_False (P := SimCard.status row' = "assigned" ∧ _))
    by (rewrite Hst'; by intros []).
  rewrite (decide_False (P := SimCard.status row = "sold" ∧ _))
    by (rewrite Hst; by intros []).
  rewrite (decide_True (P := SimCard.status row' = "sold" ∧ _))
    by (by rewrite Hasg', Hasg).
  rewrite (decide_True (P := SimCard.assignedTo row = _)) by done.
  rewrite (decide_True (P := SimCard.assignedTo row' = _))
    by (by rewrite Hasg').
  lia.
Qed.

Lemma sell_then_shop_stats_witness :
  ∃ st st',
    get_shop_stats "S" demo_db = Ok st
    ∧ get_shop_stats "S"
        (update_simcard "A" (SimCardUpdate.mk None (Some "sold") None None) 9
           demo_db).1
      = Ok st'
    ∧ ss_sold st' = ss_sold st + 1.
Proof.
  destruct (sell_then_shop_stats demo_db "A" "S" 9
              (demo_card "A" "C1" "assigned" (Some "S")) demo_shop
              ltac:(by_evaluation) eq_refl eq_refl eq_refl eq_refl)
    as (st & st' & E & E' & _ & Hs & _).
  by exists st, st'.
Defined.

(** ** Authentication *)

(** X16: [login] answers 401 "Invalid credentials" when no user row has
    both the username and the password of the request; when the usernames
    of the table are pairwise distinct and a row has both, it answers with
    the fixed token "test-token-123" and the identifier, username and role
    of that row (the password is not part of the answer). *)
Theorem login_by_credentials (request : LoginRequest.t)
    (users : list User.t) :
  ((∀ u, u ∈ users → ¬ credentials_match request u) →
   login request users = HTTPException 401 "Invalid credentials")
  ∧ (∀ u, users_constraint users → u ∈ users → credentials_match request u →
          login request users
          = Ok (mkLoginResponse true "test-token-123"
                  (mkLoginUser (User.id u) (User.username u) (User.role u)))).
Proof.
  split.
  - intros Hno. unfold login. by rewrite filter_none.
  - intros u [_ Hnames] Hu Hm. unfold login.
    destruct (head (filter _ users)) as [v|] eqn:E.
    + apply head_Some_elem_of, list_elem_of_filter in E as [Hv Hin].
      assert (v = u) as ->; [|done].
      apply (NoDup_key_inj User.username users); try done.
      destruct Hv, Hm. congruence.
    + apply head_None in E. exfalso.
      eapply filter_nil_not_elem_of; [exact E|exact Hm|exact Hu].
Qed.

Lemma login_by_credentials_witness :
  login (LoginRequest.mk "admin" "wrong")
    [User.mk "u1" "admin" "admin123" "admin"]
  = HTTPException 401 "Invalid credentials"
  ∧ login (LoginRequest.mk "admin" "admin123")
      [User.mk "u1" "admin" "admin123" "admin"]
    = Ok (mkLoginResponse true "test-token-123"
            (mkLoginUser "u1" "admin" "admin")).
Proof.
  split.
  - apply (proj1 (login_by_credentials _ _)). apply Forall_forall.
    by_evaluation.
  - apply (proj2 (login_by_credentials (LoginRequest.mk "admin" "admin123")
                    [User.mk "u1" "admin" "admin123" "admin"])
             (User.mk "u1" "admin" "admin123" "admin"));
      [by_evaluation|left|by_evaluation].
Defined.

(** X17: the seeding step of [init_database] leaves a users table that
    already has a user named "admin" exactly as it is (whatever that
    user's password is); on a table meeting its constraints without such a
    user, and with a fresh identifier, it appends the user admin/admin123
    with role "admin", after which [login] with admin/admin123 succeeds
    and a second seeding changes nothing. *)
Theorem init_database_seeds_admin (user_id : string) (users : list User.t) :
  ("admin" ∈ User.username <$> users → init_database user_id users = users)
  ∧ (users_constraint users →
     ("admin" ∉ User.username <$> users) →
     (user_id ∉ User.id <$> users) →
     init_database user_id users
     = users ++ [User.mk user_id "admin" "admin123" "admin"]
     ∧ login (LoginRequest.mk "admin" "admin123")
         (init_database user_id users)
       = Ok (mkLoginResponse true "test-token-123"
               (mkLoginUser user_id "admin" "admin"))
     ∧ ∀ user_id', init_database user_id' (init_database user_id users)
                   = init_database user_id users).
Proof.
  assert (Hskip : ∀ i us, "admin" ∈ User.username <$> us →
            init_database i us = us).
  { intros i us Hin. unfold init_database. rewrite decide_False; [done|].
    intros [_ Hnd]. rewrite fmap_app in Hnd.
    apply NoDup_app in Hnd as (_ & Hdis & _).
    apply (Hdis _ Hin). simpl. left. }
  split; [apply Hskip|].
  intros [Hids Hnames] Hadmin Hid.
  set (row := User.mk user_id "admin" "admin123" "admin").
  assert (Hc : users_constraint (users ++ [row])).
  { split; rewrite fmap_app; apply NoDup_app; (split; [done|]);
      (split; [|apply NoDup_singleton]);
      intros x Hx ->%list_elem_of_singleton; done. }
  assert (Hinit : init_database user_id users = users ++ [row]).
  { unfold init_database. fold row. by rewrite decide_True. }
  rewrite Hinit. split; [done|]. split.
  - unfold login. rewrite filter_app, (filter_none _ users).
    + by rewrite filter_cons, decide_True.
    + intros u Hu [E _]. apply Hadmin. simpl in E. rewrite <- E.
      by apply list_elem_of_fmap_2.
  - intros user_id'. apply Hskip. rewrite fmap_app.
    apply elem_of_app. right. left.
Qed.

Lemma init_database_seeds_admin_witness :
  init_database "u2" [User.mk "u1" "admin" "changed" "admin"]
  = [User.mk "u1" "admin" "changed" "admin"]
  ∧ init_database "u1" [] = [User.mk "u1" "admin" "admin123" "admin"].
Proof.
  split.
  - apply (proj1 (init_database_seeds_admin "u2"
                    [User.mk "u1" "admin" "changed" "admin"])).
    by_evaluation.
  - apply (proj2 (init_database_seeds_admin "u1" []));
      by_evaluation.
Defined.

(** ** What a status check writes and returns *)

(** X18: [check_simcard_status] on an existing card answers with the row
    as it was stored before the request; afterwards the stored row is that
    row with [lastChecked] set to the clock reading and every other column
    kept, and all other cards and the shops are unchanged. *)
Theorem check_simcard_status_stamps_one_card (db : DB) (simcard_id : string)
    (now : datetime) (row : SimCard.t) :
  select_simcard simcard_id db = Some row →
  ∃ db',
    check_simcard_status simcard_id now db = (db', Ok row)
    ∧ select_simcard simcard_id db'
      = Some (SimCard.mk (SimCard.id row) (SimCard.code row)
                (SimCard.status row) (SimCard.assignedTo row)
                (SimCard.assignedShopName row) (SimCard.addedDate row)
                (SimCard.saleDate row) (Some now))
    ∧ shops db' = shops db
    ∧ length (simcards db') = length (simcards db)
    ∧ (∀ i c, simcards db !! i = Some c → SimCard.id c ≠ simcard_id →
              simcards db' !! i = Some c).
Proof.
  intros Hsel.
  destruct (check_simcard_status_found db simcard_id now row Hsel)
    as [E Hsel'].
  eexists. split; [exact E|]. split; [exact Hsel'|]. split; [done|].
  unfold stamp_lastChecked. cbn [simcards].
  split; [apply length_update_where|].
  intros i c Hc Hne. rewrite update_where_lookup, Hc. simpl.
  by rewrite decide_False.
Qed.

Lemma check_simcard_status_stamps_one_card_witness :
  ∃ db',
    check_simcard_status "B" 7 demo_db
    = (db', Ok (demo_card "B" "C2" "available" None))
    ∧ (SimCard.lastChecked <$> select_simcard "B" db') = Some (Some 7%Z).
Proof.
  destruct (check_simcard_status_stamps_one_card demo_db "B" 7
              (demo_card "B" "C2" "available" None) eq_refl)
    as (db' & E & Hsel & _).
  exists db'. split; [exact E|]. by rewrite Hsel.
Defined.

(** ** A new card in the global statistics *)

(** X19: in a database meeting the table constraints, after a card is
    created with a fresh identifier and a fresh code, [get_statistics]
    reports one card more in [totalSimCards] and in [availableSimCards],
    and the same [assignedSimCards], [soldSimCards], [totalShops] and
    [activeShops]. *)
Theorem create_simcard_then_statistics (db : DB) (simcard_id : string)
    (now : datetime) (simcard : SimCardCreate.t) :
  wf_db db →
  simcard_id ∉ SimCard.id <$> simcards db →
  SimCardCreate.code simcard ∉ SimCard.code <$> simcards db →
  let st := get_statistics db in
  let st' := get_statistics (create_simcard simcard_id now simcard db).1 in
  Statistics.totalSimCards st' = Statistics.totalSimCards st + 1
  ∧ Statistics.availableSimCards st' = Statistics.availableSimCards st + 1
  ∧ Statistics.assignedSimCards st' = Statistics.assignedSimCards st
  ∧ Statistics.soldSimCards st' = Statistics.soldSimCards st
  ∧ Statistics.totalShops st' = Statistics.totalShops st
  ∧ Statistics.activeShops st' = Statistics.activeShops st.
Proof.
  intros Hwf Hid Hcode.
  rewrite (create_simcard_fresh db simcard_id now simcard Hwf Hid Hcode).
  cbn [fst]. unfold get_statistics, count_status.
  cbn [Statistics.totalSimCards Statistics.availableSimCards
         Statistics.assignedSimCards Statistics.soldSimCards
         Statistics.totalShops Statistics.activeShops shops simcards].
  rewrite !filter_app, !length_app, !filter_cons.
  rewrite decide_True by done.
  rewrite (decide_False (P := _ = "assigned")) by done.
  rewrite (decide_False (P := _ = "sold")) by done.
  rewrite !filter_nil. cbn [length]. repeat split; lia.
Qed.

Lemma create_simcard_then_statistics_witness :
  Statistics.totalSimCards
    (get_statistics
       (create_simcard "Z" 9 (SimCardCreate.mk "C3") demo_db).1)
  = Statistics.totalSimCards (get_statistics demo_db) + 1.
Proof.
  apply (create_simcard_then_statistics demo_db "Z" 9
           (SimCardCreate.mk "C3")); by_evaluation.
Defined.
